(** * deform.form: the Field / Form / Button model of [deform/form.py]

    A shallow embedding of the Python module [deform/form.py].  Python
    objects live in a store ([heap]) and are addressed by location, every
    instance carries its [__dict__] as a finite map from attribute names to
    values, and methods are computations in a state-and-exception monad
    that thread the store and a log of the calls made to collaborators
    (widget classes, widget methods, peppercorn, colander). *)

From stdpp Require Import base option list gmap strings.
From Stdlib Require Import Ascii Lia.

Local Open Scope string_scope.
Local Open Scope list_scope.
Set Warnings "-register-all".

(** ** Python strings: [str.capitalize] *)

Module PyStr.

(** [c.upper()] for a byte of a [str]: only the ASCII letters change. *)
Definition upper (c : ascii) : ascii :=
  let n := nat_of_ascii c in
  if (97 <=? n)%nat && (n <=? 122)%nat then ascii_of_nat (n - 32) else c.

(** [c.lower()] for a byte of a [str]. *)
Definition lower (c : ascii) : ascii :=
  let n := nat_of_ascii c in
  if (65 <=? n)%nat && (n <=? 90)%nat then ascii_of_nat (n + 32) else c.

Fixpoint map (f : ascii -> ascii) (s : string) : string :=
  match s with
  | EmptyString => EmptyString
  | String c r => String (f c) (map f r)
  end.

(** [s.capitalize()]: the first character upper-cased, every other
    character lower-cased. *)
Definition capitalize (s : string) : string :=
  match s with
  | EmptyString => EmptyString
  | String c r => String (upper c) (map lower r)
  end.

(** The reading "the name with its first letter capitalized": the first
    character upper-cased and the rest of the string kept as it is. *)
Definition first_letter_capitalized (s : string) : string :=
  match s with
  | EmptyString => EmptyString
  | String c r => String (upper c) r
  end.

(** No character of [s] is an upper-case ASCII letter. *)
Fixpoint no_upper (s : string) : bool :=
  match s with
  | EmptyString => true
  | String c r =>
      negb ((65 <=? nat_of_ascii c)%nat && (nat_of_ascii c <=? 90)%nat)
      && no_upper r
  end.

Definition tail (s : string) : string :=
  match s with
  | EmptyString => EmptyString
  | String _ r => r
  end.

End PyStr.

(** ** Button *)

(** [class Button]: three attributes, set once by [__init__]. *)
Record Button := mkButton {
  button_name : string;
  button_title : string;
  button_value : string
}.

(** [Button.__init__(self, name='submit', title=None, value=None)].
    [None] for [name] is the omitted argument; [None] for [title] and
    [value] is Python's [None], passed or defaulted. *)
Definition Button_init (name : option string) (title value : option string)
  : Button :=
  let name := default "submit" name in
  let title :=
    match title with
    | None => PyStr.capitalize name
    | Some t => t
    end in
  let value :=
    match value with
    | None => name
    | Some v => v
    end in
  mkButton name title value.

(** ** Values, objects and the store *)

Abbreviation loc := nat.

(** Plain Python data that this module only passes along: the submitted
    values, peppercorn's pstruct, a widget's cstruct, the deserialized
    value, a schema node's serialized default, and the payload of a
    [colander.Invalid]. *)
Inductive pydata :=
| PNone
| PStr (s : string)
| PSeq (xs : list pydata)
| PMap (kvs : list (string * pydata))
| PObj (id : nat).

(** [template.default_renderer] or a renderer supplied by the caller. *)
Inductive Renderer :=
| default_renderer
| user_renderer (id : nat).

(** [schema.typ]: [getattr(typ, 'default_widget_maker', None)] is its only
    attribute read here; a maker is a widget class, named by a number. *)
Record SchemaType := mkSchemaType {
  default_widget_maker : option nat
}.

(** A [colander.SchemaNode], as far as [form.py] reads it.  The schema
    tree is shared by reference and never written by this module. *)
Inductive SchemaNode := mkSchemaNode {
  schema_name : string;
  schema_title : string;
  schema_description : string;
  schema_required : bool;
  schema_typ : SchemaType;
  schema_sdefault : pydata;
  schema_children : list SchemaNode
}.

(** What an attribute of an instance can hold. *)
Inductive val :=
| VNone
| VBool (b : bool)
| VStr (s : string)
| VData (d : pydata)
| VRef (l : loc)
| VRefs (ls : list loc)
| VSchema (s : SchemaNode)
| VRenderer (r : Renderer)
| VButtons (bs : list Button).

(** The widget classes that [form.py] instantiates. *)
Inductive widget_class :=
| TextInputWidget
| FormWidget
| MadeWidget (maker : nat).

Inductive pyclass :=
| ClsField
| ClsForm
| ClsWidget (w : widget_class).

(** An instance: its class and its [__dict__]. *)
Record obj := mkObj {
  cls : pyclass;
  dict : gmap string val
}.

(** Calls that leave this module, in the order they are made. *)
Inductive call :=
| CallMaker (maker : nat)
| CallTextInputWidget
| CallFormWidget
| CallParse (fields : list (string * pydata))
| CallWidgetDeserialize (widget : val) (field : loc) (pstruct : pydata)
| CallSchemaDeserialize (schema : SchemaNode) (cstruct : pydata)
| CallHandleError (widget : val) (field : loc) (error : pydata).

Record state := mkState {
  heap : list obj;
  calls : list call
}.

(** ** Exceptions and the monad of methods *)

Inductive exn :=
| KeyError (name : string)
| AttributeError (attr : string)
| TypeError
| RecursionError
| Invalid (error : pydata)
| ValidationFailure (field : loc) (cstruct : pydata) (error : pydata)
| OtherError (id : nat).

Inductive outcome (A : Type) :=
| Ok (a : A)
| Raise (e : exn).
Arguments Ok {A} a.
Arguments Raise {A} e.

Definition M (A : Type) : Type := state -> outcome A * state.

Definition ret {A} (a : A) : M A := fun st => (Ok a, st).

Definition bind {A B} (m : M A) (k : A -> M B) : M B :=
  fun st =>
    match m st with
    | (Ok a, st') => k a st'
    | (Raise e, st') => (Raise e, st')
    end.

Definition raise {A} (e : exn) : M A := fun st => (Raise e, st).

(** [try: m  except colander.Invalid, e: handler e]. *)
Definition try_except_Invalid {A} (m : M A) (handler : pydata -> M A) : M A :=
  fun st =>
    match m st with
    | (Raise (Invalid e), st') => handler e st'
    | r => r
    end.

Declare Scope py_scope.
Delimit Scope py_scope with py.
Notation "x <- c ;; k" := (bind c (fun x => k))
  (at level 100, c at next level, right associativity) : py_scope.
Notation "c ;;; k" := (bind c (fun _ => k))
  (at level 100, right associativity) : py_scope.
Local Open Scope py_scope.

(** A pure result of a collaborator, lifted. *)
Definition lift {A} (r : outcome A) : M A := fun st => (r, st).

(** A collaborator that may also write to the store. *)
Definition lift_heap {A} (f : list obj -> outcome A * list obj) : M A :=
  fun st =>
    let '(r, h) := f (heap st) in (r, mkState h (calls st)).

Definition log (c : call) : M unit :=
  fun st => (Ok tt, mkState (heap st) (calls st ++ [c])).

(** Instantiation: the new object gets the next free location. *)
Definition alloc (c : pyclass) : M loc :=
  fun st =>
    (Ok (length (heap st)),
     mkState (heap st ++ [mkObj c ∅]) (calls st)).

Definition read_obj (l : loc) : M obj :=
  fun st =>
    match heap st !! l with
    | Some o => (Ok o, st)
    | None => (Raise TypeError, st)
    end.

(** Attributes defined on the class itself: [Field.error = None]. *)
Definition class_attr (c : pyclass) (k : string) : option val :=
  match c with
  | ClsField | ClsForm => if decide (k = "error") then Some VNone else None
  | ClsWidget _ => None
  end.

(** [l.k] for an attribute that is not a descriptor: the instance
    [__dict__] first, then the class. *)
Definition getattr (l : loc) (k : string) : M val :=
  o <- read_obj l ;;
  match dict o !! k with
  | Some v => ret v
  | None =>
      match class_attr (cls o) k with
      | Some v => ret v
      | None => raise (AttributeError k)
      end
  end.

(** [l.k = v]. *)
Definition setattr (l : loc) (k : string) (v : val) : M unit :=
  fun st =>
    match heap st !! l with
    | Some o =>
        (Ok tt,
         mkState (<[l := mkObj (cls o) (<[k := v]> (dict o))]> (heap st))
                 (calls st))
    | None => (Raise TypeError, st)
    end.

(** [l.children.append(c)]. *)
Definition children_append (l : loc) (c : loc) : M unit :=
  v <- getattr l "children" ;;
  match v with
  | VRefs cs => setattr l "children" (VRefs (cs ++ [c]))
  | _ => raise (AttributeError "append")
  end.

(** [for x in xs: body x]. *)
Definition for_each {A} (body : A -> M unit) : list A -> M unit :=
  fix go (xs : list A) : M unit :=
    match xs with
    | [] => ret tt
    | x :: xs' => body x ;;; go xs'
    end.

(** [[f x for x in xs]]. *)
Definition list_comp {A B} (f : A -> M B) : list A -> M (list B) :=
  fix go (xs : list A) : M (list B) :=
    match xs with
    | [] => ret []
    | x :: xs' => y <- f x ;; ys <- go xs' ;; ret (y :: ys)
    end.

(** [self.schema], which has to be a schema node for anything to be read
    from it. *)
Definition get_schema (self : loc) : M SchemaNode :=
  v <- getattr self "schema" ;;
  match v with
  | VSchema s => ret s
  | _ => raise (AttributeError "schema")
  end.

(** Calling a widget class: the call is logged and a new instance made. *)
Definition call_of_widget_class (w : widget_class) : call :=
  match w with
  | TextInputWidget => CallTextInputWidget
  | FormWidget => CallFormWidget
  | MadeWidget m => CallMaker m
  end.

Definition new_widget (w : widget_class) : M val :=
  log (call_of_widget_class w) ;;;
  l <- alloc (ClsWidget w) ;;
  ret (VRef l).

(** Modelled from the spec: [decorator.reify], which is not part of
    [form.py].  A lazily computed, memoized attribute: a value found in the
    instance [__dict__] (assigned directly, or cached by an earlier read) is
    returned as it is; otherwise the wrapped method is called once and its
    result is stored on the instance under the attribute's name. *)
Definition reify (name : string) (wrapped : loc -> M val) (self : loc)
  : M val :=
  o <- read_obj self ;;
  match dict o !! name with
  | Some v => ret v
  | None =>
      v <- wrapped self ;;
      setattr self name v ;;;
      ret v
  end.

(** ** [class Field] *)

(** [Field.__init__(self, schema, renderer=None)]. *)
Fixpoint Field_init (schema : SchemaNode) (renderer : option Renderer)
  (self : loc) {struct schema} : M unit :=
  setattr self "schema" (VSchema schema) ;;;
  setattr self "renderer" (VRenderer (default default_renderer renderer)) ;;;
  setattr self "name" (VStr (schema_name schema)) ;;;
  setattr self "title" (VStr (schema_title schema)) ;;;
  setattr self "description" (VStr (schema_description schema)) ;;;
  setattr self "required" (VBool (schema_required schema)) ;;;
  setattr self "children" (VRefs []) ;;;
  for_each
    (fun child =>
       c <- alloc ClsField ;;
       Field_init child renderer c ;;;
       children_append self c)
    (schema_children schema).

(** [Field(schema, renderer)]. *)
Definition Field_new (schema : SchemaNode) (renderer : option Renderer)
  : M loc :=
  self <- alloc ClsField ;;
  Field_init schema renderer self ;;;
  ret self.

(** [child.name == name] for a string [name]. *)
Definition name_eqb (v : val) (name : string) : bool :=
  match v with
  | VStr s => bool_decide (s = name)
  | _ => false
  end.

(** The loop of [__getitem__] over [self.children]. *)
Fixpoint find_child (name : string) (children : list loc) : M loc :=
  match children with
  | [] => raise (KeyError name)
  | child :: rest =>
      n <- getattr child "name" ;;
      if name_eqb n name then ret child else find_child name rest
  end.

(** [Field.__getitem__(self, name)]. *)
Definition Field_getitem (self : loc) (name : string) : M loc :=
  v <- getattr self "children" ;;
  match v with
  | VRefs children => find_child name children
  | _ => raise TypeError
  end.

(** The body of the reified [Field.widget]. *)
Definition Field_widget_body (self : loc) : M val :=
  s <- get_schema self ;;
  match default_widget_maker (schema_typ s) with
  | None => new_widget TextInputWidget
  | Some maker => new_widget (MadeWidget maker)
  end.

(** The body of the reified [Field.default]. *)
Definition Field_default_body (self : loc) : M val :=
  s <- get_schema self ;;
  ret (VData (schema_sdefault s)).

(** [self.widget] and [self.default]. *)
Definition Field_widget : loc -> M val := reify "widget" Field_widget_body.
Definition Field_default : loc -> M val := reify "default" Field_default_body.

(** The code outside [form.py] that [render] and [validate] call. *)
Record Collaborators := mkCollaborators {
  peppercorn_parse : list (string * pydata) -> outcome pydata;
  widget_serialize :
    val -> loc -> pydata -> list obj -> outcome pydata * list obj;
  widget_deserialize :
    val -> loc -> pydata -> list obj -> outcome pydata * list obj;
  widget_handle_error :
    val -> loc -> pydata -> list obj -> outcome unit * list obj;
  schema_deserialize : SchemaNode -> pydata -> outcome pydata
}.

(** [Field.render(self, cstruct=None)]. *)
Definition Field_render (E : Collaborators) (self : loc)
  (cstruct : option pydata) : M pydata :=
  w <- Field_widget self ;;
  lift_heap (widget_serialize E w self (default PNone cstruct)).

(** [Field.validate(self, fields)]. *)
Definition Field_validate (E : Collaborators) (self : loc)
  (fields : list (string * pydata)) : M pydata :=
  pstruct <- (log (CallParse fields) ;;; lift (peppercorn_parse E fields)) ;;
  w <- Field_widget self ;;
  cstruct <- (log (CallWidgetDeserialize w self pstruct) ;;;
              lift_heap (widget_deserialize E w self pstruct)) ;;
  try_except_Invalid
    (s <- get_schema self ;;
     log (CallSchemaDeserialize s cstruct) ;;;
     lift (schema_deserialize E s cstruct))
    (fun e =>
       w <- Field_widget self ;;
       log (CallHandleError w self e) ;;;
       lift_heap (widget_handle_error E w self e) ;;;
       raise (ValidationFailure self cstruct e)).

(** ** [class Form(Field)] *)

(** The loop of [Form.__init__] over [buttons]: a string becomes
    [Button(button)], anything else is appended as it is. *)
Fixpoint Form_buttons (buttons : list (string + Button))
  (_buttons : list Button) : list Button :=
  match buttons with
  | [] => _buttons
  | inl name :: rest =>
      Form_buttons rest (_buttons ++ [Button_init (Some name) None None])
  | inr button :: rest => Form_buttons rest (_buttons ++ [button])
  end.

(** [Form.__init__(self, schema, renderer=None, action='.', method='POST',
    buttons=())]; [None] is the omitted argument. *)
Definition Form_init (schema : SchemaNode) (renderer : option Renderer)
  (action method : option string) (buttons : option (list (string + Button)))
  (self : loc) : M unit :=
  Field_init schema renderer self ;;;
  let _buttons := Form_buttons (default [] buttons) [] in
  setattr self "action" (VStr (default "." action)) ;;;
  setattr self "method" (VStr (default "POST" method)) ;;;
  setattr self "buttons" (VButtons _buttons) ;;;
  w <- new_widget FormWidget ;;
  setattr self "widget" w.

(** [Form(schema, renderer, action, method, buttons)]. *)
Definition Form_new (schema : SchemaNode) (renderer : option Renderer)
  (action method : option string) (buttons : option (list (string + Button)))
  : M loc :=
  self <- alloc ClsForm ;;
  Form_init schema renderer action method buttons self ;;;
  ret self.

(** ** [Field.clone] *)

(** [c(schema)] for the class [c] of a field. *)
Definition instantiate (c : pyclass) (schema : SchemaNode) : M loc :=
  match c with
  | ClsField => Field_new schema None
  | ClsForm => Form_new schema None None None None
  | ClsWidget _ => raise TypeError
  end.

(** [dst.__dict__.update(src.__dict__)]. *)
Definition dict_update (dst src : loc) : M unit :=
  fun st =>
    match heap st !! dst, heap st !! src with
    | Some d, Some s =>
        (Ok tt,
         mkState (<[dst := mkObj (cls d) (dict s ∪ dict d)]> (heap st))
                 (calls st))
    | _, _ => (Raise TypeError, st)
    end.

(** [Field.clone(self)].  The recursion follows references in the store,
    so it is bounded by the interpreter's recursion limit. *)
Fixpoint Field_clone (limit : nat) (self : loc) : M loc :=
  match limit with
  | 0 => raise RecursionError
  | S limit' =>
      o <- read_obj self ;;
      schema <- get_schema self ;;
      cloned <- instantiate (cls o) schema ;;
      dict_update cloned self ;;;
      v <- getattr self "children" ;;
      match v with
      | VRefs children =>
          clones <- list_comp (Field_clone limit') children ;;
          setattr cloned "children" (VRefs clones) ;;;
          ret cloned
      | _ => raise TypeError
      end
  end.

(** ** Reading the store in statements *)

(** The entry of [l.__dict__] under [k], if the object and the entry exist. *)
Definition attr (h : list obj) (l : loc) (k : string) : option val :=
  match h !! l with
  | Some o => dict o !! k
  | None => None
  end.

Definition class_of (h : list obj) (l : loc) : option pyclass :=
  cls <$> h !! l.

(** [c.name == name] holds for the object at [c]. *)
Definition has_name (h : list obj) (name : string) (c : loc) : bool :=
  match attr h c "name" with
  | Some v => name_eqb v name
  | None => false
  end.

(** The conversion [Form.__init__] applies to one entry of [buttons]. *)
Definition as_button (b : string + Button) : Button :=
  match b with
  | inl name => Button_init (Some name) None None
  | inr button => button
  end.

(** The widget class that the body of [Field.widget] instantiates for a
    field over the schema node [s]. *)
Definition default_widget_class (s : SchemaNode) : widget_class :=
  match default_widget_maker (schema_typ s) with
  | None => TextInputWidget
  | Some maker => MadeWidget maker
  end.

(** [n] reads of an attribute in a row, with the values read. *)
Fixpoint read_times (read : M val) (n : nat) : M (list val) :=
  match n with
  | 0 => ret []
  | S n' => v <- read ;; vs <- read_times read n' ;; ret (v :: vs)
  end.

(** [l.k = v] on the store alone. *)
Definition store_attr (l : loc) (k : string) (v : val) (h : list obj)
  : list obj :=
  match h !! l with
  | Some o => <[l := mkObj (cls o) (<[k := v]> (dict o))]> h
  | None => h
  end.

Definition is_handle_error (c : call) : bool :=
  match c with
  | CallHandleError _ _ _ => true
  | _ => false
  end.

(** The state in which [validate] reads [self.widget] for the first time:
    [peppercorn.parse(fields)] has been called and has returned. *)
Definition after_parse (fields : list (string * pydata)) (st : state)
  : state :=
  mkState (heap st) (calls st ++ [CallParse fields]).

(** Some call to a collaborator raises [x]. *)
Definition raised_by_collaborator (E : Collaborators) (x : exn) : Prop :=
  (exists fields, peppercorn_parse E fields = Raise x) \/
  (exists w f p h, fst (widget_deserialize E w f p h) = Raise x) \/
  (exists s c, schema_deserialize E s c = Raise x) \/
  (exists w f e h, fst (widget_handle_error E w f e h) = Raise x).

(** ** Field trees in the store *)

(** [P x y] for the elements of two lists of the same length, pairwise. *)
Definition all2 {A B} (P : A -> B -> Prop) : list A -> list B -> Prop :=
  fix go (xs : list A) (ys : list B) : Prop :=
    match xs, ys with
    | [], [] => True
    | x :: xs', y :: ys' => P x y /\ go xs' ys'
    | _, _ => False
    end.

(** [P x] for every element of a list. *)
Definition all1 {A} (P : A -> Prop) : list A -> Prop :=
  fix go (xs : list A) : Prop :=
    match xs with
    | [] => True
    | x :: xs' => P x /\ go xs'
    end.

(** The attributes that [Field.__init__] leaves on an instance whose
    [__dict__] was [d], for the schema node [s], the renderer [r] and the
    children [cs]. *)
Definition Field_attrs (s : SchemaNode) (r : Renderer) (cs : list loc)
  (d : gmap string val) : gmap string val :=
  <["children" := VRefs cs]>
    (<["required" := VBool (schema_required s)]>
       (<["description" := VStr (schema_description s)]>
          (<["title" := VStr (schema_title s)]>
             (<["name" := VStr (schema_name s)]>
                (<["renderer" := VRenderer r]>
                   (<["schema" := VSchema s]> d)))))).

(** The object at [l] is a field over the schema node [s] with renderer
    [r]: it refers to [s], carries the name, title, description and
    required flag of [s], and has one child per child of [s], in the same
    order, each a [Field] instance created after [l] that is in turn a
    field over that child of [s] with the same renderer. *)
Fixpoint mirrors (h : list obj) (r : Renderer) (s : SchemaNode) (l : loc)
  {struct s} : Prop :=
  exists o cs,
    h !! l = Some o /\
    dict o !! "schema" = Some (VSchema s) /\
    dict o !! "renderer" = Some (VRenderer r) /\
    dict o !! "name" = Some (VStr (schema_name s)) /\
    dict o !! "title" = Some (VStr (schema_title s)) /\
    dict o !! "description" = Some (VStr (schema_description s)) /\
    dict o !! "required" = Some (VBool (schema_required s)) /\
    dict o !! "children" = Some (VRefs cs) /\
    length cs = length (schema_children s) /\
    all2 (fun s' c =>
            l < c /\ class_of h c = Some ClsField /\ mirrors h r s' c)
         (schema_children s) cs.

(** What [Field.__init__] has done when it returns: [h] is the store at
    the call, [o] the instance [self] at the call, [h'] the store at the
    return and [cs] the children it created. *)
Definition init_post (r : Renderer) (s : SchemaNode) (self : loc)
  (h : list obj) (o : obj) (cs : list loc) (h' : list obj) : Prop :=
  length h <= length h' /\
  h' !! self = Some (mkObj (cls o) (Field_attrs s r cs (dict o))) /\
  (forall l, l < length h -> l <> self -> h' !! l = h !! l) /\
  length cs = length (schema_children s) /\
  all2 (fun s' c =>
          length h <= c /\ class_of h' c = Some ClsField /\ mirrors h' r s' c)
       (schema_children s) cs.

(** The locations of a tree of fields: the root and, for each of its
    children in order, the tree below it. *)
Inductive ftree := FNode (l : loc) (ks : list ftree).

Definition root (t : ftree) : loc :=
  match t with
  | FNode l _ => l
  end.

Fixpoint nodes (t : ftree) : list loc :=
  match t with
  | FNode l ks => l :: concat (map nodes ks)
  end.

(** The number of fields on the longest path from the root down. *)
Fixpoint depth (t : ftree) : nat :=
  match t with
  | FNode _ ks => S (max_list (map depth ks))
  end.

(** The store holds a tree of fields at the locations of [t]: every node is
    a [Field] or a [Form] that refers to a schema node and whose [children]
    are the roots of the subtrees, and every [Form] has the widget that
    [Form.__init__] assigned. *)
Fixpoint is_tree (h : list obj) (t : ftree) {struct t} : Prop :=
  match t with
  | FNode l ks =>
      exists o s,
        h !! l = Some o /\
        match cls o with
        | ClsField => True
        | ClsForm => is_Some (dict o !! "widget")
        | ClsWidget _ => False
        end /\
        dict o !! "schema" = Some (VSchema s) /\
        dict o !! "children" = Some (VRefs (map root ks)) /\
        all1 (fun k => is_tree h k) ks
  end.

(** The tree at [t'] in the store [h'] is a clone of the tree at [t] in the
    store [h]: node by node, the same class, every attribute of the source
    other than [children] with the value it has on the source, [widget]
    and [default] absent where they are absent on the source, and as
    children the clones of the children. *)
Fixpoint clone_of (h h' : list obj) (t t' : ftree) {struct t} : Prop :=
  match t, t' with
  | FNode l ks, FNode l' ks' =>
      exists o o',
        h !! l = Some o /\
        h' !! l' = Some o' /\
        cls o' = cls o /\
        (forall k v, k <> "children" ->
           dict o !! k = Some v -> dict o' !! k = Some v) /\
        (forall k, k = "widget" \/ k = "default" ->
           dict o !! k = None -> dict o' !! k = None) /\
        dict o' !! "children" = Some (VRefs (map root ks')) /\
        all2 (fun k k' => clone_of h h' k k') ks ks'
  end.

(** What [clone] has done when it returns: [st] is the state at the call
    on the root of [t], [st'] the state at the return and [t'] the tree of
    the fields it created. *)
Definition clone_post (st : state) (t t' : ftree) (st' : state) : Prop :=
  clone_of (heap st) (heap st') t t' /\
  is_tree (heap st') t' /\
  (forall l, l < length (heap st) -> heap st' !! l = heap st !! l) /\
  (forall l, l ∈ nodes t' -> length (heap st) <= l) /\
  length (heap st) <= length (heap st') /\
  exists new,
    calls st' = calls st ++ new /\
    Forall (fun c => c = CallFormWidget) new.

(** ** Notions for the properties of the module as a whole *)

(** The attribute names that [Field.__init__] assigns. *)
Definition field_keys : list string :=
  ["schema"; "renderer"; "name"; "title"; "description"; "required";
   "children"].

(** The attribute names that [Form.__init__] assigns itself. *)
Definition form_keys : list string :=
  ["action"; "method"; "buttons"; "widget"].

(** Whatever the outcome, the computation [m] leaves every attribute
    outside [W] as it found it. *)
Definition writes_only {A} (W : loc -> string -> Prop) (m : M A) : Prop :=
  forall st l k,
    ~ W l k -> attr (heap (snd (m st))) l k = attr (heap st) l k.

(** The number of schema nodes on the longest path from [s] down. *)
Fixpoint schema_depth (s : SchemaNode) : nat :=
  S (max_list (map schema_depth (schema_children s))).

Definition kids (t : ftree) : list ftree :=
  match t with
  | FNode _ ks => ks
  end.



(** ** Concrete inputs used to run the model *)

Module Examples.

Definition leaf (name title : string) (maker : option nat) : SchemaNode :=
  mkSchemaNode name title "" true (mkSchemaType maker) PNone [].

(** A mapping schema whose two children are both named [x]. *)
Definition twins : SchemaNode :=
  mkSchemaNode "" "" "" true (mkSchemaType None) PNone
    [leaf "x" "first" None; leaf "x" "second" (Some 7)].

Definition empty : state := mkState [] [].

(** A schema with one string node, and the store after [Field] is called
    on it: the field at 0, its widget not yet read. *)
Definition color : SchemaNode := leaf "color" "Color" None.
Definition color_built : state := snd (Field_new color None empty).

(** Collaborators: peppercorn returns the pairs as a mapping, a widget
    hands the pstruct on and records an error on the field, and the
    schema rejects a missing value. *)
Definition colander : Collaborators :=
  {| peppercorn_parse := fun fields => Ok (PMap fields);
     widget_serialize := fun _ _ c h => (Ok c, h);
     widget_deserialize := fun _ _ p h => (Ok p, h);
     widget_handle_error :=
       fun _ f e h => (Ok tt, store_attr f "error" (VData e) h);
     schema_deserialize :=
       fun _ c =>
         match c with
         | PNone | PMap [] => Raise (Invalid (PStr "Required"))
         | _ => Ok c
         end |}.

(** Collaborators whose parser fails. *)
Definition broken : Collaborators :=
  {| peppercorn_parse := fun _ => Raise (OtherError 1);
     widget_serialize := widget_serialize colander;
     widget_deserialize := widget_deserialize colander;
     widget_handle_error := widget_handle_error colander;
     schema_deserialize := schema_deserialize colander |}.

(** The store after [Field(twins)]: the root at 0, its children at 1, 2. *)
Definition twins_built : state := snd (Field_new twins None empty).

(** The locations of the field tree in [twins_built]. *)
Definition twins_tree : ftree := FNode 0 [FNode 1 []; FNode 2 []].

(** The store after [Form(color, buttons=["submit"])]: the form at 0 and
    its widget at 1. *)
Definition color_form : state :=
  snd (Form_new color None None None (Some [inl "submit"]) empty).

(** A submission with a value for [color], and the state in which
    [validate] calls the widget's [deserialize] on it: the field's widget
    has been computed and stored at 1. *)
Definition red : list (string * pydata) := [("color", PStr "red")].
Definition red_read : state :=
  snd (Field_widget 0 (after_parse red color_built)).

(** The empty submission, which the schema rejects. *)
Definition nothing : list (string * pydata) := [].
Definition nothing_read : state :=
  snd (Field_widget 0 (after_parse nothing color_built)).
Definition nothing_rejected : state :=
  mkState (heap nothing_read)
    (calls nothing_read ++
     [CallWidgetDeserialize (VRef 1) 0 (PMap nothing);
      CallSchemaDeserialize color (PMap nothing)]).

(** The field object of [color_built]. *)
Definition color_field : obj :=
  mkObj ClsField (Field_attrs color default_renderer [] ∅).

End Examples.

(** * Properties *)

(** ** Button *)

Lemma map_lower_no_upper (r : string) :
  PyStr.no_upper r = true -> PyStr.map PyStr.lower r = r.
Proof.
  induction r as [|d r IH]; [reflexivity|].
  cbn [PyStr.no_upper PyStr.map]. intros H.
  apply andb_prop in H as [Hd Hr].
  rewrite (IH Hr). f_equal.
  unfold PyStr.lower. apply negb_true_iff in Hd. cbv zeta. rewrite Hd.
  reflexivity.
Qed.

Lemma capitalize_no_upper_tail (s : string) :
  PyStr.no_upper (PyStr.tail s) = true ->
  PyStr.capitalize s = PyStr.first_letter_capitalized s.
Proof.
  destruct s as [|c r]; [reflexivity|].
  cbn [PyStr.tail PyStr.capitalize PyStr.first_letter_capitalized].
  intros H. rewrite (map_lower_no_upper r H). reflexivity.
Qed.

(** C8, counterexample: the default title of [Button("fooBar")] is
    ["Foobar"], not the name with only its first letter capitalized. *)
Lemma Button_title_lowercases_rest :
  button_title (Button_init (Some "fooBar") None None) = "Foobar" /\
  PyStr.first_letter_capitalized "fooBar" = "FooBar" /\
  button_title (Button_init (Some "fooBar") None None)
    <> PyStr.first_letter_capitalized "fooBar".
Proof. repeat split; discriminate. Qed.

(** C8, as amended: [Button(name, title, value)] keeps [name] (["submit"]
    when omitted), an explicit title and an explicit value; the default
    value is the name and the default title is [name.capitalize()], the
    first character upper-cased and all others lower-cased, which is the
    name with its first letter capitalized whenever no later character of
    the name is an upper-case letter. *)
Theorem Button_init_defaults (name title value : option string) :
  let n := default "submit" name in
  let b := Button_init name title value in
  button_name b = n /\
  button_title b = default (PyStr.capitalize n) title /\
  button_value b = default n value /\
  PyStr.capitalize n
    = match n with
      | EmptyString => EmptyString
      | String c r => String (PyStr.upper c) (PyStr.map PyStr.lower r)
      end /\
  (title = None -> PyStr.no_upper (PyStr.tail n) = true ->
   button_title b = PyStr.first_letter_capitalized n).
Proof.
  cbv zeta. unfold Button_init.
  destruct title as [t|], value as [v|]; cbn [button_name button_title
    button_value default]; repeat split; try discriminate;
    intros _ H; apply capitalize_no_upper_tail, H.
Qed.

Lemma Button_init_defaults_witness :
  button_title (Button_init (Some "submit") None None)
    = PyStr.first_letter_capitalized "submit".
Proof.
  apply (proj2 (proj2 (proj2 (proj2
    (Button_init_defaults (Some "submit") None None)))));
    reflexivity.
Defined.

Example Button_submit :
  Button_init (Some "submit") None None = mkButton "submit" "Submit" "submit".
Proof. reflexivity. Qed.

Example Button_go :
  Button_init (Some "go") (Some "Go!") (Some "1") = mkButton "go" "Go!" "1".
Proof. reflexivity. Qed.

Example Button_no_name :
  Button_init None None None = mkButton "submit" "Submit" "submit".
Proof. reflexivity. Qed.

(** ** Running the primitives *)

Lemma attr_lookup h l k v :
  attr h l k = Some v <-> exists o, h !! l = Some o /\ dict o !! k = Some v.
Proof.
  unfold attr. split.
  - destruct (h !! l) as [o|]; [|discriminate]. eauto.
  - intros (o & -> & H). exact H.
Qed.

Lemma getattr_run st l k v :
  attr (heap st) l k = Some v -> getattr l k st = (Ok v, st).
Proof.
  intros (o & Ho & Hk)%attr_lookup.
  unfold getattr, bind, read_obj. rewrite Ho, Hk. reflexivity.
Qed.

Lemma find_child_run name cs st :
  Forall (fun c => is_Some (attr (heap st) c "name")) cs ->
  find_child name cs st
  = (match List.find (has_name (heap st) name) cs with
     | Some c => Ok c
     | None => Raise (KeyError name)
     end, st).
Proof.
  induction 1 as [|c cs [v Hv] _ IH]; [reflexivity|].
  cbn [find_child List.find]. unfold bind at 1.
  rewrite (getattr_run _ _ _ _ Hv).
  unfold has_name at 1. rewrite Hv.
  destruct (name_eqb v name); [reflexivity | exact IH].
Qed.

Lemma Field_getitem_run st self name cs :
  attr (heap st) self "children" = Some (VRefs cs) ->
  Forall (fun c => is_Some (attr (heap st) c "name")) cs ->
  Field_getitem self name st
  = (match List.find (has_name (heap st) name) cs with
     | Some c => Ok c
     | None => Raise (KeyError name)
     end, st).
Proof.
  intros Hcs Hnames. unfold Field_getitem, bind.
  rewrite (getattr_run _ _ _ _ Hcs). apply find_child_run, Hnames.
Qed.

Lemma find_first_match {A} (p : A -> bool) pre x post :
  Forall (fun y => p y = false) pre -> p x = true ->
  List.find p (pre ++ x :: post) = Some x.
Proof.
  induction 1 as [|y pre Hy _ IH]; intros Hx; simpl.
  - rewrite Hx. reflexivity.
  - rewrite Hy. exact (IH Hx).
Qed.

Lemma find_none_iff {A} (p : A -> bool) xs :
  List.find p xs = None <-> Forall (fun y => p y = false) xs.
Proof.
  induction xs as [|y xs IH]; simpl.
  - split; [constructor | reflexivity].
  - destruct (p y) eqn:Hy.
    + split; [discriminate|]. intros H. inversion H; congruence.
    + rewrite IH. split; [constructor; assumption | inversion 1; assumption].
Qed.

Lemma find_some_split {A} (p : A -> bool) xs x :
  List.find p xs = Some x ->
  exists pre post, xs = pre ++ x :: post /\
    Forall (fun y => p y = false) pre /\ p x = true.
Proof.
  induction xs as [|y xs IH]; simpl; [discriminate|].
  destruct (p y) eqn:Hy.
  - intros [= ->]. exists [], xs. repeat split; [constructor | exact Hy].
  - intros (pre & post & -> & Hpre & Hx)%IH.
    exists (y :: pre), post. repeat split; [constructor; assumption | exact Hx].
Qed.

(** ** [Field.__getitem__] *)

(** C9: when several direct children carry the requested name, [field[name]]
    is the first of them in [children] order; the children after it are not
    looked at and none of them is the result. *)
Theorem Field_getitem_first_match st self name pre c post :
  attr (heap st) self "children" = Some (VRefs (pre ++ c :: post)) ->
  Forall (fun c' => is_Some (attr (heap st) c' "name")) pre ->
  Forall (fun c' => has_name (heap st) name c' = false) pre ->
  has_name (heap st) name c = true ->
  Field_getitem self name st = (Ok c, st) /\
  (forall c', c' ∈ post -> c' <> c ->
     fst (Field_getitem self name st) <> Ok c').
Proof.
  intros Hcs Hnames Hpre Hc.
  assert (Hrun : Field_getitem self name st = (Ok c, st)).
  { unfold Field_getitem, bind. rewrite (getattr_run _ _ _ _ Hcs).
    clear Hcs. induction pre as [|d pre IH]; cbn [app find_child].
    - unfold has_name in Hc.
      destruct (attr (heap st) c "name") as [v|] eqn:Hv; [|discriminate].
      unfold bind. rewrite (getattr_run _ _ _ _ Hv), Hc. reflexivity.
    - inversion Hnames as [|? ? [v Hv] Hnames']; subst.
      inversion Hpre as [|? ? Hd Hpre']; subst.
      unfold bind. rewrite (getattr_run _ _ _ _ Hv).
      unfold has_name in Hd. rewrite Hv in Hd. rewrite Hd.
      exact (IH Hnames' Hpre'). }
  split; [exact Hrun|].
  intros c' _ Hne. rewrite Hrun. cbn. congruence.
Qed.

Lemma Field_getitem_first_match_witness :
  Field_getitem 0 "x" Examples.twins_built = (Ok 1, Examples.twins_built).
Proof.
  apply (Field_getitem_first_match Examples.twins_built 0 "x" [] 1 [2]).
  - vm_compute. reflexivity.
  - constructor.
  - constructor.
  - vm_compute. reflexivity.
Defined.

(** C5, counterexample: both children of the field built from
    [Examples.twins] are named [x]; the second child sits at location 2,
    and looking up its name returns the child at location 1. *)
Lemma Field_getitem_of_child_name_is_another_child :
  attr (heap Examples.twins_built) 0 "children" = Some (VRefs [1; 2]) /\
  attr (heap Examples.twins_built) 2 "name" = Some (VStr "x") /\
  Field_getitem 0 "x" Examples.twins_built = (Ok 1, Examples.twins_built) /\
  fst (Field_getitem 0 "x" Examples.twins_built) <> Ok 2.
Proof.
  split; [vm_compute; reflexivity|].
  split; [vm_compute; reflexivity|].
  split; [vm_compute; reflexivity|].
  vm_compute. discriminate.
Qed.

(** C5, as amended: [field[name]] returns the first direct child whose name
    equals [name] whenever such a child exists, raises [KeyError] exactly
    when no direct child has that name, only ever returns a direct child,
    and [field[child.name]] is that child for every child that no earlier
    sibling shares its name with. *)
Theorem Field_getitem_spec st self name cs :
  attr (heap st) self "children" = Some (VRefs cs) ->
  Forall (fun c => is_Some (attr (heap st) c "name")) cs ->
  ((exists c, c ∈ cs /\ has_name (heap st) name c = true) ->
   exists pre c post,
     cs = pre ++ c :: post /\
     Forall (fun c' => has_name (heap st) name c' = false) pre /\
     has_name (heap st) name c = true /\
     Field_getitem self name st = (Ok c, st)) /\
  (Field_getitem self name st = (Raise (KeyError name), st)
   <-> forall c, c ∈ cs -> has_name (heap st) name c = false) /\
  (forall c, fst (Field_getitem self name st) = Ok c -> c ∈ cs) /\
  (forall pre c post,
     cs = pre ++ c :: post ->
     attr (heap st) c "name" = Some (VStr name) ->
     Forall (fun c' => attr (heap st) c' "name" <> Some (VStr name)) pre ->
     Field_getitem self name st = (Ok c, st)).
Proof.
  intros Hcs Hnames.
  pose proof (Field_getitem_run st self name cs Hcs Hnames) as Hrun.
  repeat split.
  - intros (c & Hin & Hc).
    destruct (List.find (has_name (heap st) name) cs) as [d|] eqn:Hfind.
    + apply find_some_split in Hfind as (pre & post & -> & Hpre & Hd).
      exists pre, d, post. repeat split; try assumption.
    + apply find_none_iff in Hfind.
      rewrite Forall_forall in Hfind. rewrite (Hfind c Hin) in Hc.
      discriminate.
  - rewrite Hrun.
    destruct (List.find (has_name (heap st) name) cs) eqn:Hfind;
      [discriminate|].
    intros _. apply find_none_iff in Hfind.
    rewrite Forall_forall in Hfind. exact Hfind.
  - intros Hall. rewrite Hrun.
    assert (List.find (has_name (heap st) name) cs = None) as ->;
      [|reflexivity].
    apply find_none_iff, Forall_forall, Hall.
  - intros c. rewrite Hrun. cbn.
    destruct (List.find (has_name (heap st) name) cs) as [d|] eqn:Hfind;
      [|discriminate].
    intros [= ->].
    apply find_some_split in Hfind as (pre & post & -> & _ & _).
    apply elem_of_app. right. apply elem_of_cons. left. reflexivity.
  - intros pre c post -> Hc Hpre. rewrite Hrun.
    rewrite (find_first_match _ pre c post); [reflexivity| |].
    + apply Forall_app in Hnames as [Hnames _].
      clear Hrun Hcs. induction Hpre as [|d pre Hd _ IH]; [constructor|].
      inversion Hnames as [|? ? [v Hv] Hnames']; subst.
      constructor; [|exact (IH Hnames')].
      unfold has_name. rewrite Hv.
      destruct v; cbn; try reflexivity.
      apply bool_decide_eq_false. intros ->. exact (Hd Hv).
    + unfold has_name. rewrite Hc. cbn. apply bool_decide_eq_true.
      reflexivity.
Qed.

Lemma Field_getitem_spec_witness :
  Field_getitem 0 "x" Examples.twins_built = (Ok 1, Examples.twins_built).
Proof.
  refine (proj2 (proj2 (proj2
    (Field_getitem_spec Examples.twins_built 0 "x" [1; 2] _ _)))
    [] 1 [2] _ _ _).
  - vm_compute. reflexivity.
  - repeat constructor; eexists; vm_compute; reflexivity.
  - reflexivity.
  - vm_compute. reflexivity.
  - constructor.
Defined.

(** ** Lazily computed attributes *)

Lemma setattr_run st l k v o :
  heap st !! l = Some o ->
  setattr l k v st
  = (Ok tt, mkState (store_attr l k v (heap st)) (calls st)).
Proof. intros H. unfold setattr, store_attr. rewrite H. reflexivity. Qed.

Lemma attr_store_attr_eq h l k v :
  l < length h -> attr (store_attr l k v h) l k = Some v.
Proof.
  intros Hl. unfold store_attr, attr.
  destruct (h !! l) as [o|] eqn:Ho.
  - cbv beta iota. rewrite list_lookup_insert_eq by exact Hl.
    apply lookup_insert_eq.
  - apply lookup_ge_None in Ho. lia.
Qed.

Lemma attr_store_attr_ne h l k v l' k' :
  (l', k') <> (l, k) -> attr (store_attr l k v h) l' k' = attr h l' k'.
Proof.
  intros Hne. unfold store_attr, attr.
  destruct (h !! l) as [o|] eqn:Ho; [|reflexivity].
  cbv beta iota.
  destruct (decide (l' = l)) as [->|Hl].
  - rewrite list_lookup_insert_eq by (eapply lookup_lt_Some, Ho).
    rewrite Ho. apply lookup_insert_ne. congruence.
  - rewrite list_lookup_insert_ne by congruence. reflexivity.
Qed.


Lemma reify_cached name wrapped self st v :
  attr (heap st) self name = Some v ->
  reify name wrapped self st = (Ok v, st).
Proof.
  intros (o & Ho & Hk)%attr_lookup.
  unfold reify, bind, read_obj. rewrite Ho, Hk. reflexivity.
Qed.

Lemma reify_first name wrapped self st o v st1 o1 :
  heap st !! self = Some o ->
  dict o !! name = None ->
  wrapped self st = (Ok v, st1) ->
  heap st1 !! self = Some o1 ->
  reify name wrapped self st
  = (Ok v, mkState (store_attr self name v (heap st1)) (calls st1)).
Proof.
  intros Ho Hk Hw Ho1. unfold reify, bind, read_obj.
  rewrite Ho, Hk, Hw, (setattr_run _ _ _ _ _ Ho1). reflexivity.
Qed.

Lemma read_times_cached (read : M val) st v :
  read st = (Ok v, st) ->
  forall n, read_times read n st = (Ok (replicate n v), st).
Proof.
  intros Hread n. induction n as [|n IH]; [reflexivity|].
  cbn [read_times replicate]. unfold bind. rewrite Hread, IH. reflexivity.
Qed.

Lemma get_schema_run st self s :
  attr (heap st) self "schema" = Some (VSchema s) ->
  get_schema self st = (Ok s, st).
Proof.
  intros H. unfold get_schema, bind. rewrite (getattr_run _ _ _ _ H).
  reflexivity.
Qed.

Lemma new_widget_run w st :
  new_widget w st
  = (Ok (VRef (length (heap st))),
     mkState (heap st ++ [mkObj (ClsWidget w) ∅])
             (calls st ++ [call_of_widget_class w])).
Proof. reflexivity. Qed.

Lemma Field_widget_body_run st self s :
  attr (heap st) self "schema" = Some (VSchema s) ->
  Field_widget_body self st
  = (Ok (VRef (length (heap st))),
     mkState (heap st ++ [mkObj (ClsWidget (default_widget_class s)) ∅])
             (calls st ++ [call_of_widget_class (default_widget_class s)])).
Proof.
  intros H. unfold Field_widget_body, bind.
  rewrite (get_schema_run _ _ _ H). unfold default_widget_class.
  destruct (default_widget_maker (schema_typ s)); apply new_widget_run.
Qed.

Lemma Field_default_body_run st self s :
  attr (heap st) self "schema" = Some (VSchema s) ->
  Field_default_body self st = (Ok (VData (schema_sdefault s)), st).
Proof.
  intros H. unfold Field_default_body, bind.
  rewrite (get_schema_run _ _ _ H). reflexivity.
Qed.

(** The first read of an unassigned [widget]. *)
Lemma Field_widget_first st self o s :
  heap st !! self = Some o ->
  dict o !! "schema" = Some (VSchema s) ->
  dict o !! "widget" = None ->
  Field_widget self st
  = (Ok (VRef (length (heap st))),
     mkState
       (store_attr self "widget" (VRef (length (heap st)))
          (heap st ++ [mkObj (ClsWidget (default_widget_class s)) ∅]))
       (calls st ++ [call_of_widget_class (default_widget_class s)])).
Proof.
  intros Ho Hs Hw. unfold Field_widget.
  assert (Hbody := Field_widget_body_run st self s
    (proj2 (attr_lookup _ _ _ _) (ex_intro _ o (conj Ho Hs)))).
  rewrite (reify_first _ _ _ _ o _ _ o Ho Hw Hbody); [reflexivity|].
  cbn. rewrite lookup_app_l by (eapply lookup_lt_Some, Ho). exact Ho.
Qed.

(** C4: [widget] and [default] are computed at most once.  The first read
    of an unassigned [widget] calls the schema type's widget maker, or
    [TextInputWidget] when the type has none, stores the new instance on
    the field and returns it; the first read of [default] stores and
    returns [schema.sdefault]; every later read returns the stored value
    and changes neither the store nor the log of calls; and a widget
    assigned before the first read is what every read returns. *)
Theorem Field_lazy_attributes st self o s :
  heap st !! self = Some o ->
  dict o !! "schema" = Some (VSchema s) ->
  (dict o !! "widget" = None ->
   let w := VRef (length (heap st)) in
   let wc := default_widget_class s in
   exists st1,
     Field_widget self st = (Ok w, st1) /\
     heap st1
       = store_attr self "widget" w (heap st ++ [mkObj (ClsWidget wc) ∅]) /\
     calls st1 = calls st ++ [call_of_widget_class wc] /\
     forall n, read_times (Field_widget self) n st1
               = (Ok (replicate n w), st1)) /\
  (forall v, dict o !! "widget" = Some v ->
     forall n, read_times (Field_widget self) n st
               = (Ok (replicate n v), st)) /\
  (forall v st1, setattr self "widget" v st = (Ok tt, st1) ->
     forall n, read_times (Field_widget self) n st1
               = (Ok (replicate n v), st1)) /\
  (dict o !! "default" = None ->
   let d := VData (schema_sdefault s) in
   exists st1,
     Field_default self st = (Ok d, st1) /\
     heap st1 = store_attr self "default" d (heap st) /\
     calls st1 = calls st /\
     forall n, read_times (Field_default self) n st1
               = (Ok (replicate n d), st1)) /\
  (forall v, dict o !! "default" = Some v ->
     forall n, read_times (Field_default self) n st
               = (Ok (replicate n v), st)).
Proof.
  intros Ho Hs.
  assert (Hlt : self < length (heap st)) by (eapply lookup_lt_Some, Ho).
  repeat split.
  - intros Hw. cbv zeta. eexists. split; [|split; [|split]].
    + apply (Field_widget_first st self o s Ho Hs Hw).
    + reflexivity.
    + reflexivity.
    + apply read_times_cached, reify_cached. cbn.
      apply attr_store_attr_eq. rewrite length_app. lia.
  - intros v Hv. apply read_times_cached, reify_cached, attr_lookup. eauto.
  - intros v st1. rewrite (setattr_run _ _ _ _ _ Ho). intros [= <-].
    apply read_times_cached, reify_cached. cbn.
    apply attr_store_attr_eq, Hlt.
  - intros Hd. cbv zeta. eexists. split; [|split; [|split]].
    + unfold Field_default.
      assert (Hbody := Field_default_body_run st self s
        (proj2 (attr_lookup _ _ _ _) (ex_intro _ o (conj Ho Hs)))).
      rewrite (reify_first _ _ _ _ o _ _ o Ho Hd Hbody Ho). reflexivity.
    + reflexivity.
    + reflexivity.
    + apply read_times_cached, reify_cached. cbn.
      apply attr_store_attr_eq, Hlt.
  - intros v Hv. apply read_times_cached, reify_cached, attr_lookup. eauto.
Qed.

(** ** [Field.validate] *)

Lemma Field_widget_cached st self v :
  attr (heap st) self "widget" = Some v -> Field_widget self st = (Ok v, st).
Proof. apply reify_cached. Qed.

Lemma Field_widget_inv st self w st1 :
  Field_widget self st = (Ok w, st1) ->
  (attr (heap st) self "widget" = Some w /\ st1 = st) \/
  (exists o s,
     heap st !! self = Some o /\
     dict o !! "widget" = None /\
     dict o !! "schema" = Some (VSchema s) /\
     w = VRef (length (heap st)) /\
     st1 = mkState
             (store_attr self "widget" w
                (heap st ++ [mkObj (ClsWidget (default_widget_class s)) ∅]))
             (calls st ++ [call_of_widget_class (default_widget_class s)])).
Proof.
  destruct (heap st !! self) as [o|] eqn:Ho.
  2:{ unfold Field_widget, reify, bind, read_obj. rewrite Ho. discriminate. }
  destruct (dict o !! "widget") as [v|] eqn:Hw.
  - rewrite (Field_widget_cached _ _ v) by (apply attr_lookup; eauto).
    intros [= <- <-]. left. split; [apply attr_lookup; eauto | reflexivity].
  - destruct (dict o !! "schema") as [vs|] eqn:Hs.
    2:{ unfold Field_widget, reify, Field_widget_body, get_schema, getattr,
          bind, read_obj.
        rewrite Ho, Hw, Ho, Hs. destruct (cls o); discriminate. }
    destruct vs as [| | | | | |s| |];
      try (unfold Field_widget, reify, Field_widget_body, get_schema,
             getattr, bind, read_obj;
           rewrite Ho, Hw, Ho, Hs; discriminate).
    rewrite (Field_widget_first st self o s Ho Hs Hw).
    intros [= <- <-]. right. exists o, s. repeat split; assumption.
Qed.

(** C1: [validate] calls [peppercorn.parse(fields)], then reads the
    field's widget [w] (computing it if need be) and calls
    [w.deserialize(field, p)] on the pstruct [p], then calls
    [schema.deserialize(c)] on the cstruct [c]; when that returns [v],
    [validate] returns [v] and [handle_error] is not called; when it raises
    [colander.Invalid] with [e], [validate] calls
    [widget.handle_error(field, e)] and, when that returns, raises
    [ValidationFailure(field, c, e)]. *)
Theorem Field_validate_pipeline E self fields st p w st1 c h2 s :
  peppercorn_parse E fields = Ok p ->
  Field_widget self (after_parse fields st) = (Ok w, st1) ->
  widget_deserialize E w self p (heap st1) = (Ok c, h2) ->
  attr h2 self "schema" = Some (VSchema s) ->
  let st2 :=
    mkState h2
      (calls st1 ++
       [CallWidgetDeserialize w self p; CallSchemaDeserialize s c]) in
  (exists made,
     calls st1 = calls st ++ CallParse fields :: made /\
     (made = [] \/ exists wc, made = [call_of_widget_class wc])) /\
  (forall v,
     schema_deserialize E s c = Ok v ->
     Field_validate E self fields st = (Ok v, st2)) /\
  (forall e w' st3 h4,
     schema_deserialize E s c = Raise (Invalid e) ->
     Field_widget self st2 = (Ok w', st3) ->
     widget_handle_error E w' self e (heap st3) = (Ok tt, h4) ->
     Field_validate E self fields st
     = (Raise (ValidationFailure self c e),
        mkState h4 (calls st3 ++ [CallHandleError w' self e]))).
Proof.
  intros Hp Hw Hc Hs st2.
  split.
  { apply Field_widget_inv in Hw as Hinv.
    destruct Hinv as [[_ ->] | (o & s0 & _ & _ & _ & _ & ->)];
      cbn [calls after_parse].
    - exists []. split; [reflexivity | left; reflexivity].
    - eexists. split; [rewrite <- app_assoc; reflexivity|].
      right. eexists. reflexivity. }
  assert (Hs' : get_schema self
                  (mkState h2 (calls st1 ++ [CallWidgetDeserialize w self p]))
                = (Ok s, mkState h2
                           (calls st1 ++ [CallWidgetDeserialize w self p])))
    by (apply get_schema_run, Hs).
  split.
  - intros v Hv.
    unfold Field_validate, bind, log, lift, lift_heap, try_except_Invalid.
    rewrite Hp. fold (after_parse fields st). rewrite Hw.
    cbn [heap calls]. rewrite Hc, Hs'. cbn [heap calls]. rewrite Hv.
    unfold st2. rewrite <- app_assoc. reflexivity.
  - intros e w' st3 h4 He Hw' Hh.
    unfold Field_validate, bind, log, lift, lift_heap, try_except_Invalid,
      raise.
    rewrite Hp. fold (after_parse fields st). rewrite Hw.
    cbn [heap calls]. rewrite Hc, Hs'. cbn [heap calls]. rewrite He.
    rewrite <- app_assoc. cbn [app]. fold st2. rewrite Hw'.
    cbn [heap calls]. rewrite Hh. reflexivity.
Qed.

Lemma get_schema_raises st self x st1 :
  get_schema self st = (Raise x, st1) ->
  x = TypeError \/ x = AttributeError "schema".
Proof.
  unfold get_schema, getattr, bind, read_obj, ret, raise.
  destruct (heap st !! self) as [o|]; [|intros [= <- _]; auto].
  destruct (dict o !! "schema") as [v|].
  - destruct v; intros [= <- _]; auto.
  - destruct (class_attr (cls o) "schema") as [v|] eqn:Hc.
    + destruct (cls o); discriminate.
    + intros [= <- _]. auto.
Qed.

Lemma Field_widget_raises st self x st1 :
  Field_widget self st = (Raise x, st1) ->
  x = TypeError \/ x = AttributeError "schema".
Proof.
  unfold Field_widget, reify, bind, read_obj, ret.
  destruct (heap st !! self) as [o|] eqn:Ho; [|intros [= <- _]; auto].
  destruct (dict o !! "widget") as [v|]; [discriminate|].
  unfold Field_widget_body, bind.
  destruct (get_schema self st) as [[s|y] st'] eqn:Hs.
  - destruct (default_widget_maker (schema_typ s));
      rewrite new_widget_run; unfold setattr; cbn [heap calls];
      match goal with
      | |- context [?h !! self] => destruct (h !! self)
      end; intros [= <- _]; auto.
  - intros [= <- _]. eapply get_schema_raises, Hs.
Qed.

Lemma get_schema_state st self s st1 :
  get_schema self st = (Ok s, st1) ->
  st1 = st /\ attr (heap st) self "schema" = Some (VSchema s).
Proof.
  unfold get_schema, getattr, bind, read_obj, ret, raise, attr.
  destruct (heap st !! self) as [o|]; [|discriminate].
  destruct (dict o !! "schema") as [v|].
  - destruct v; try discriminate. intros [= -> <-]. auto.
  - destruct (class_attr (cls o) "schema") as [v|] eqn:Hc; [|discriminate].
    destruct (cls o); discriminate.
Qed.

(** C6: what [validate] produces is decided by its collaborators.  An
    exception raised by [peppercorn.parse] or by the widget's [deserialize]
    leaves [validate] as it is; so does any exception of
    [schema.deserialize] other than [colander.Invalid], and any exception
    of the widget's [handle_error]; when none of these happens the outcome
    is the deserialized value or a [ValidationFailure], and a
    [ValidationFailure] that [validate] raises either converts a
    [colander.Invalid] of [schema.deserialize] or was raised as such by a
    collaborator. *)
Theorem Field_validate_outcomes E self fields st :
  (forall x,
     peppercorn_parse E fields = Raise x ->
     fst (Field_validate E self fields st) = Raise x) /\
  (forall p w st1 x h2,
     peppercorn_parse E fields = Ok p ->
     Field_widget self (after_parse fields st) = (Ok w, st1) ->
     widget_deserialize E w self p (heap st1) = (Raise x, h2) ->
     fst (Field_validate E self fields st) = Raise x) /\
  (forall p w st1 c h2 s,
     peppercorn_parse E fields = Ok p ->
     Field_widget self (after_parse fields st) = (Ok w, st1) ->
     widget_deserialize E w self p (heap st1) = (Ok c, h2) ->
     attr h2 self "schema" = Some (VSchema s) ->
     let st2 :=
       mkState h2
         (calls st1 ++
          [CallWidgetDeserialize w self p; CallSchemaDeserialize s c]) in
     match schema_deserialize E s c with
     | Ok v => fst (Field_validate E self fields st) = Ok v
     | Raise (Invalid e) =>
         forall w' st3,
           Field_widget self st2 = (Ok w', st3) ->
           match fst (widget_handle_error E w' self e (heap st3)) with
           | Ok _ =>
               fst (Field_validate E self fields st)
               = Raise (ValidationFailure self c e)
           | Raise x => fst (Field_validate E self fields st) = Raise x
           end
     | Raise x => fst (Field_validate E self fields st) = Raise x
     end) /\
  (forall f c e,
     fst (Field_validate E self fields st)
     = Raise (ValidationFailure f c e) ->
     (f = self /\ exists s, schema_deserialize E s c = Raise (Invalid e)) \/
     raised_by_collaborator E (ValidationFailure f c e)).
Proof.
  split; [|split; [|split]].
  - intros x Hp.
    unfold Field_validate, bind, log, lift. rewrite Hp. reflexivity.
  - intros p w st1 x h2 Hp Hw Hc.
    unfold Field_validate, bind, log, lift, lift_heap.
    rewrite Hp. fold (after_parse fields st). rewrite Hw.
    cbn [heap calls]. rewrite Hc. reflexivity.
  - intros p w st1 c h2 s Hp Hw Hc Hs st2.
    assert (Hs' : get_schema self
                    (mkState h2
                       (calls st1 ++ [CallWidgetDeserialize w self p]))
                  = (Ok s, mkState h2
                             (calls st1 ++ [CallWidgetDeserialize w self p])))
      by (apply get_schema_run, Hs).
    assert (Hrun : Field_validate E self fields st
                   = match schema_deserialize E s c with
                     | Raise (Invalid e) =>
                         (w' <- Field_widget self ;;
                          log (CallHandleError w' self e) ;;;
                          lift_heap (widget_handle_error E w' self e) ;;;
                          raise (ValidationFailure self c e)) st2
                     | r => (r, st2)
                     end).
    { unfold Field_validate, bind at 1 2 3 4 5, log at 1 2, lift at 1,
        lift_heap at 1.
      rewrite Hp. fold (after_parse fields st). rewrite Hw.
      cbn [heap calls]. rewrite Hc.
      unfold try_except_Invalid, bind at 1 2, log at 1, lift at 1.
      rewrite Hs'. cbn [heap calls]. rewrite <- app_assoc. cbn [app].
      fold st2. destruct (schema_deserialize E s c) as [v|[]]; reflexivity. }
    rewrite Hrun.
    destruct (schema_deserialize E s c) as [v|x]; [reflexivity|].
    destruct x; try reflexivity.
    intros w' st3 Hw'. unfold bind, log, lift_heap, raise. rewrite Hw'.
    cbn [heap calls].
    destruct (widget_handle_error E w' self error (heap st3)) as [[[]|x] h4];
      reflexivity.
  - intros f c e.
    unfold Field_validate, bind at 1 2 3 4 5, log at 1 2, lift at 1,
      lift_heap at 1.
    fold (after_parse fields st).
    destruct (peppercorn_parse E fields) as [p|x] eqn:Hp.
    2:{ cbn [fst]. intros [= ->]. right. left. eauto. }
    destruct (Field_widget self (after_parse fields st)) as [[w|x] st1] eqn:Hw.
    2:{ cbn [fst]. intros [= ->].
        apply Field_widget_raises in Hw as [|]; discriminate. }
    cbn [heap calls].
    destruct (widget_deserialize E w self p (heap st1)) as [[c'|x] h2] eqn:Hc.
    2:{ cbn [fst]. intros [= ->]. right. right. left.
        exists w, self, p, (heap st1). rewrite Hc. reflexivity. }
    unfold try_except_Invalid, bind at 1 2, log at 1, lift at 1.
    destruct (get_schema self _) as [[s|x] st2] eqn:Hs.
    2:{ apply get_schema_raises in Hs as [-> | ->]; discriminate. }
    apply get_schema_state in Hs as [-> _]. cbn [heap calls].
    destruct (schema_deserialize E s c') as [v|x] eqn:Hv; [discriminate|].
    destruct x;
      try (cbn [fst]; intros [= -> -> ->]; right; right; right; left; eauto);
      try discriminate.
    unfold bind, log, lift_heap, raise.
    match goal with
    | |- context [Field_widget self ?s2] =>
        destruct (Field_widget self s2) as [[w'|x] st3] eqn:Hw'
    end.
    2:{ cbn [fst]. intros [= ->].
        apply Field_widget_raises in Hw' as [|]; discriminate. }
    cbn [heap calls].
    destruct (widget_handle_error E w' self error (heap st3))
      as [[[]|x] h4] eqn:Hh.
    + cbn [fst]. intros [= -> -> ->]. left. eauto.
    + cbn [fst]. intros [= ->]. right. right. right. right.
      exists w', self, error, (heap st3). rewrite Hh. reflexivity.
Qed.

Lemma attr_app_new h c l k : attr (h ++ [mkObj c ∅]) l k = attr h l k.
Proof.
  unfold attr. destruct (decide (l < length h)) as [Hl|Hl].
  - rewrite lookup_app_l by exact Hl. reflexivity.
  - rewrite (proj2 (lookup_ge_None h l)) by lia.
    destruct (decide (l = length h)) as [->|Hne].
    + rewrite list_lookup_middle by reflexivity. apply lookup_empty.
    + rewrite (proj2 (lookup_ge_None _ l)); [reflexivity|].
      rewrite length_app. cbn. lia.
Qed.

Lemma Field_validate_ok_inv E self fields st v st' :
  Field_validate E self fields st = (Ok v, st') ->
  exists p w st1 c s,
    peppercorn_parse E fields = Ok p /\
    Field_widget self (after_parse fields st) = (Ok w, st1) /\
    widget_deserialize E w self p (heap st1) = (Ok c, heap st') /\
    attr (heap st') self "schema" = Some (VSchema s) /\
    schema_deserialize E s c = Ok v /\
    calls st'
    = calls st1 ++
      [CallWidgetDeserialize w self p; CallSchemaDeserialize s c].
Proof.
  unfold Field_validate, bind at 1 2 3 4 5, log at 1 2, lift at 1,
    lift_heap at 1.
  fold (after_parse fields st).
  destruct (peppercorn_parse E fields) as [p|x] eqn:Hp; [|discriminate].
  destruct (Field_widget self (after_parse fields st)) as [[w|x] st1] eqn:Hw;
    [|discriminate].
  cbn [heap calls].
  destruct (widget_deserialize E w self p (heap st1)) as [[c|x] h2] eqn:Hc;
    [|discriminate].
  unfold try_except_Invalid, bind at 1 2, log at 1, lift at 1.
  destruct (get_schema self _) as [[s|x] st2] eqn:Hs.
  2:{ apply get_schema_raises in Hs as [-> | ->]; discriminate. }
  apply get_schema_state in Hs as [-> Hs]. cbn [heap calls] in *.
  destruct (schema_deserialize E s c) as [v'|x] eqn:Hv.
  - intros [= -> <-]. cbn [heap calls].
    exists p, w, st1, c, s. rewrite <- app_assoc. repeat split; assumption.
  - destruct x; try discriminate.
    unfold bind, log, lift_heap, raise.
    match goal with
    | |- context [Field_widget self ?s2] =>
        destruct (Field_widget self s2) as [[w'|x] st3]
    end; [|discriminate].
    cbn [heap calls].
    destruct (widget_handle_error E w' self error (heap st3)) as [[[]|x] h4];
      discriminate.
Qed.

(** C10, counterexample: a successful [validate] on a field whose widget
    has not been read before stores the widget on the field. *)
Lemma Field_validate_success_stores_widget :
  fst (Field_validate Examples.colander 0 [("color", PStr "red")]
         Examples.color_built)
    = Ok (PMap [("color", PStr "red")]) /\
  attr (heap Examples.color_built) 0 "widget" = None /\
  attr (heap (snd (Field_validate Examples.colander 0
                     [("color", PStr "red")] Examples.color_built)))
       0 "widget"
    = Some (VRef 1).
Proof. repeat split; vm_compute; reflexivity. Qed.

(** C10, as amended: when [validate] succeeds, [handle_error] is not
    called, and up to the call of the widget's [deserialize] the only
    attribute written is this field's own [widget], stored by its first
    read when it had not been assigned or read before; after that call
    [validate] writes nothing, so the store it leaves is the one
    [deserialize] returned, and every [error] attribute that [deserialize]
    left alone is what it was before the call. *)
Theorem Field_validate_success_frame E self fields st v st' :
  Field_validate E self fields st = (Ok v, st') ->
  exists p w st1 c,
    peppercorn_parse E fields = Ok p /\
    Field_widget self (after_parse fields st) = (Ok w, st1) /\
    widget_deserialize E w self p (heap st1) = (Ok c, heap st') /\
    (exists new,
       calls st' = calls st ++ new /\
       Forall (fun c => is_handle_error c = false) new) /\
    (forall l k, (l, k) <> (self, "widget") ->
       attr (heap st1) l k = attr (heap st) l k) /\
    (is_Some (attr (heap st) self "widget") -> heap st1 = heap st) /\
    ((forall l, attr (heap st') l "error" = attr (heap st1) l "error") ->
     forall l, attr (heap st') l "error" = attr (heap st) l "error").
Proof.
  intros (p & w & st1 & c & s & Hp & Hw & Hc & Hs & Hv & Hcalls)
    %Field_validate_ok_inv.
  exists p, w, st1, c.
  assert (Hframe : forall l k, (l, k) <> (self, "widget") ->
                     attr (heap st1) l k = attr (heap st) l k).
  { intros l k Hne.
    apply Field_widget_inv in Hw
      as [[_ ->] | (o & s0 & Ho & Hnone & Hs0 & -> & ->)]; [reflexivity|].
    cbn [heap after_parse].
    rewrite attr_store_attr_ne by exact Hne. apply attr_app_new. }
  split; [exact Hp|].
  split; [exact Hw|]. split; [exact Hc|]. split; [|split; [|split]].
  - apply Field_widget_inv in Hw
      as [[_ ->] | (o & s0 & Ho & Hnone & Hs0 & -> & ->)].
    + eexists. split.
      * rewrite Hcalls. cbn [calls after_parse].
        rewrite <- app_assoc. reflexivity.
      * repeat constructor.
    + eexists. split.
      * rewrite Hcalls. cbn [calls after_parse].
        rewrite <- !app_assoc. reflexivity.
      * repeat constructor.
        destruct (default_widget_class s0); reflexivity.
  - exact Hframe.
  - intros [v0 Hv0].
    apply Field_widget_inv in Hw
      as [[_ ->] | (o & s0 & Ho & Hnone & Hs0 & -> & ->)]; [reflexivity|].
    cbn [heap after_parse] in Ho.
    apply attr_lookup in Hv0 as (o' & Ho' & Hw'). congruence.
  - intros Herr l. rewrite Herr. apply Hframe. congruence.
Qed.

(** ** Construction *)

Lemma SchemaNode_induction (P : SchemaNode -> Prop) :
  (forall n t d r ty sd cs,
     Forall P cs -> P (mkSchemaNode n t d r ty sd cs)) ->
  forall s, P s.
Proof.
  intros step.
  fix IH 1. intros [n t d r ty sd cs]. apply step.
  induction cs as [|c cs IHcs]; constructor; [apply IH | exact IHcs].
Qed.

Lemma all2_Forall2 {A B} (P : A -> B -> Prop) xs ys :
  all2 P xs ys <-> Forall2 P xs ys.
Proof.
  revert ys. induction xs as [|x xs IH]; intros [|y ys]; simpl.
  - split; constructor.
  - split; [intros [] | inversion 1].
  - split; [intros [] | inversion 1].
  - rewrite IH. split.
    + intros [? ?]. constructor; assumption.
    + inversion 1; subst. split; assumption.
Qed.

Lemma all2_app {A B} (P : A -> B -> Prop) xs1 ys1 xs2 ys2 :
  all2 P xs1 ys1 -> all2 P xs2 ys2 -> all2 P (xs1 ++ xs2) (ys1 ++ ys2).
Proof.
  rewrite !all2_Forall2. apply Forall2_app.
Qed.

Lemma all2_impl {A B} (P Q : A -> B -> Prop) xs ys :
  all2 P xs ys -> (forall x y, P x y -> Q x y) -> all2 Q xs ys.
Proof.
  rewrite !all2_Forall2. apply Forall2_impl.
Qed.

Lemma mirrors_unfold h r s l :
  mirrors h r s l <->
  exists o cs,
    h !! l = Some o /\
    dict o !! "schema" = Some (VSchema s) /\
    dict o !! "renderer" = Some (VRenderer r) /\
    dict o !! "name" = Some (VStr (schema_name s)) /\
    dict o !! "title" = Some (VStr (schema_title s)) /\
    dict o !! "description" = Some (VStr (schema_description s)) /\
    dict o !! "required" = Some (VBool (schema_required s)) /\
    dict o !! "children" = Some (VRefs cs) /\
    length cs = length (schema_children s) /\
    all2 (fun s' c =>
            l < c /\ class_of h c = Some ClsField /\ mirrors h r s' c)
         (schema_children s) cs.
Proof. destruct s. reflexivity. Qed.

(** A field tree depends only on the part of the store from its root on. *)
Lemma mirrors_frame h h' r s :
  forall l,
    mirrors h r s l ->
    (forall l', l <= l' -> l' < length h -> h' !! l' = h !! l') ->
    mirrors h' r s l.
Proof.
  induction s as [n t d rq ty sd ss IH] using SchemaNode_induction.
  intros l Hm Hsame. apply mirrors_unfold in Hm
    as (o & cs & Ho & Hs & Hr & Hn & Ht & Hd & Hq & Hc & Hlen & Hkids).
  apply mirrors_unfold. exists o, cs.
  rewrite Hsame by (try lia; eapply lookup_lt_Some, Ho).
  repeat (split; [assumption|]).
  cbn [schema_children] in *. clear Hlen Hc Hs Hn Ht Hd Hq.
  revert cs Hkids. induction IH as [|s' ss IHs' _ IHss]; intros [|c cs];
    cbn [all2]; try tauto.
  intros ((Hlt & Hcls & Hm) & Hrest). split; [|exact (IHss cs Hrest)].
  assert (Hc : c < length h).
  { unfold class_of in Hcls. destruct (h !! c) eqn:E; [|discriminate].
    eapply lookup_lt_Some, E. }
  split; [exact Hlt|]. split.
  - unfold class_of. rewrite Hsame by lia. exact Hcls.
  - apply IHs'; [exact Hm|]. intros l' Hl' Hlen. apply Hsame; lia.
Qed.

Lemma Field_init_unfold s r self :
  Field_init s r self
  = (setattr self "schema" (VSchema s) ;;;
     setattr self "renderer" (VRenderer (default default_renderer r)) ;;;
     setattr self "name" (VStr (schema_name s)) ;;;
     setattr self "title" (VStr (schema_title s)) ;;;
     setattr self "description" (VStr (schema_description s)) ;;;
     setattr self "required" (VBool (schema_required s)) ;;;
     setattr self "children" (VRefs []) ;;;
     for_each
       (fun child =>
          c <- alloc ClsField ;;
          Field_init child r c ;;;
          children_append self c)
       (schema_children s)).
Proof. destruct s. reflexivity. Qed.

Lemma bind_setattr {B} l k v (f : unit -> M B) h c d cl :
  l < length h ->
  bind (setattr l k v) f (mkState (<[l := mkObj c d]> h) cl)
  = f tt (mkState (<[l := mkObj c (<[k := v]> d)]> h) cl).
Proof.
  intros Hl. unfold bind, setattr. cbn [heap calls].
  rewrite list_lookup_insert_eq by exact Hl. cbn [cls dict].
  rewrite list_insert_insert_eq. reflexivity.
Qed.

Lemma Field_attrs_lookups s r cs d :
  Field_attrs s r cs d !! "schema" = Some (VSchema s) /\
  Field_attrs s r cs d !! "renderer" = Some (VRenderer r) /\
  Field_attrs s r cs d !! "name" = Some (VStr (schema_name s)) /\
  Field_attrs s r cs d !! "title" = Some (VStr (schema_title s)) /\
  Field_attrs s r cs d !! "description"
    = Some (VStr (schema_description s)) /\
  Field_attrs s r cs d !! "required" = Some (VBool (schema_required s)) /\
  Field_attrs s r cs d !! "children" = Some (VRefs cs).
Proof. unfold Field_attrs. repeat split; by simplify_map_eq. Qed.

Lemma init_post_mirrors r s self h o cs h' :
  self < length h -> init_post r s self h o cs h' -> mirrors h' r s self.
Proof.
  intros Hself (Hlen & Ho & _ & Hcs & Hkids).
  destruct (Field_attrs_lookups s r cs (dict o))
    as (Hs & Hr & Hn & Ht & Hd & Hq & Hc).
  apply mirrors_unfold. eexists _, cs. split; [exact Ho|].
  cbn [dict]. repeat (split; [assumption|]).
  eapply all2_impl; [exact Hkids|].
  intros s' c (Hge & Hcls & Hm). repeat split; [lia | assumption..].
Qed.

Lemma children_append_run self c h cl o cs0 :
  h !! self = Some o ->
  dict o !! "children" = Some (VRefs cs0) ->
  children_append self c (mkState h cl)
  = (Ok tt,
     mkState
       (<[self := mkObj (cls o) (<["children" := VRefs (cs0 ++ [c])]> (dict o))]>
          h) cl).
Proof.
  intros Ho Hc. unfold children_append, bind.
  rewrite (getattr_run _ _ _ (VRefs cs0))
    by (apply attr_lookup; exists o; auto).
  unfold setattr. cbn [heap calls]. rewrite Ho. reflexivity.
Qed.

(** The loop of [Field.__init__] over the children of the schema node,
    given that [Field.__init__] does its work on each of them. *)
Lemma Field_init_loop r self ss :
  Forall
    (fun s => forall self st o,
       heap st !! self = Some o ->
       exists cs h',
         Field_init s r self st = (Ok tt, mkState h' (calls st)) /\
         init_post (default default_renderer r) s self (heap st) o cs h') ss ->
  forall st o cs0,
    heap st !! self = Some o ->
    dict o !! "children" = Some (VRefs cs0) ->
    exists cs h',
      for_each
        (fun child =>
           c <- alloc ClsField ;;
           Field_init child r c ;;;
           children_append self c) ss st
      = (Ok tt, mkState h' (calls st)) /\
      length (heap st) <= length h' /\
      h' !! self
      = Some (mkObj (cls o) (<["children" := VRefs (cs0 ++ cs)]> (dict o))) /\
      (forall l, l < length (heap st) -> l <> self ->
         h' !! l = heap st !! l) /\
      length cs = length ss /\
      all2 (fun s' c =>
              length (heap st) <= c /\
              class_of h' c = Some ClsField /\
              mirrors h' (default default_renderer r) s' c) ss cs.
Proof.
  set (r' := default default_renderer r).
  induction 1 as [|child ss IHchild _ IHss]; intros st o cs0 Ho Hc.
  - exists [], (heap st). destruct st as [h cl]. cbn [heap calls] in *.
    repeat split; try done.
    rewrite app_nil_r, insert_id by exact Hc. destruct o. exact Ho.
  - assert (Hself : self < length (heap st)) by (eapply lookup_lt_Some, Ho).
    set (c := length (heap st)).
    set (h0 := heap st ++ [mkObj ClsField ∅]).
    destruct (IHchild c (mkState h0 (calls st)) (mkObj ClsField ∅))
      as (cs_c & h1 & Hrun1 & Hpost1).
    { cbn [heap]. apply list_lookup_middle. reflexivity. }
    cbn [heap calls] in Hrun1, Hpost1.
    assert (Hm1 : mirrors h1 r' child c).
    { eapply init_post_mirrors; [|exact Hpost1].
      unfold h0. rewrite length_app. cbn. lia. }
    destruct Hpost1 as (Hlen1 & Hc1 & Hframe1 & _ & _).
    assert (Hlen0 : length h0 = S c)
      by (unfold h0; rewrite length_app; cbn; lia).
    assert (Ho1 : h1 !! self = Some o).
    { rewrite Hframe1 by lia. unfold h0.
      rewrite lookup_app_l by exact Hself. exact Ho. }
    set (o2 := mkObj (cls o)
                 (<["children" := VRefs (cs0 ++ [c])]> (dict o))).
    set (h2 := <[self := o2]> h1).
    destruct (IHss (mkState h2 (calls st)) o2 (cs0 ++ [c]))
      as (cs' & h' & Hrun2 & Hlen2 & Ho2 & Hframe2 & Hcs' & Hkids2).
    { cbn [heap]. unfold h2. apply list_lookup_insert_eq.
      eapply lookup_lt_Some, Ho1. }
    { unfold o2. cbn [dict]. apply lookup_insert_eq. }
    cbn [heap calls] in Hrun2, Hlen2, Hframe2, Hkids2.
    assert (Hlenh2 : length h2 = length h1) by apply length_insert.
    exists (c :: cs'), h'. split; [|split; [|split; [|split; [|split]]]].
    + cbn [for_each]. unfold bind at 1 2 3, alloc.
      fold c h0. rewrite Hrun1.
      rewrite (children_append_run self c h1 (calls st) o cs0 Ho1 Hc).
      fold o2 h2. exact Hrun2.
    + lia.
    + rewrite Ho2. unfold o2. cbn [cls dict].
      rewrite insert_insert_eq, <- app_assoc. reflexivity.
    + intros l Hl Hne. rewrite Hframe2 by lia. unfold h2.
      rewrite list_lookup_insert_ne by congruence.
      rewrite Hframe1 by lia. unfold h0. apply lookup_app_l. exact Hl.
    + cbn. rewrite Hcs'. reflexivity.
    + cbn [all2]. split.
      * assert (Hsame : forall l', c <= l' -> l' < length h1 ->
                          h' !! l' = h1 !! l').
        { intros l' Hge Hlt. rewrite Hframe2 by lia. unfold h2.
          apply list_lookup_insert_ne. lia. }
        split; [lia|]. split.
        -- unfold class_of. rewrite Hsame by lia. rewrite Hc1. reflexivity.
        -- eapply mirrors_frame; [exact Hm1 | exact Hsame].
      * eapply all2_impl; [exact Hkids2|].
        intros s' c' (Hge & Hcls & Hm). repeat split; [lia | assumption..].
Qed.

(** [Field.__init__] returns, for every schema node and every instance. *)
Lemma Field_init_run s r :
  forall self st o,
    heap st !! self = Some o ->
    exists cs h',
      Field_init s r self st = (Ok tt, mkState h' (calls st)) /\
      init_post (default default_renderer r) s self (heap st) o cs h'.
Proof.
  induction s as [n t d rq ty sd ss IH] using SchemaNode_induction.
  intros self st o Ho.
  assert (Hself : self < length (heap st)) by (eapply lookup_lt_Some, Ho).
  set (s := mkSchemaNode n t d rq ty sd ss).
  set (r' := default default_renderer r).
  set (o1 := mkObj (cls o) (Field_attrs s r' [] (dict o))).
  destruct (Field_init_loop r self ss IH
              (mkState (<[self := o1]> (heap st)) (calls st)) o1 [])
    as (cs & h' & Hrun & Hlen & Ho' & Hframe & Hcs & Hkids).
  { cbn [heap]. apply list_lookup_insert_eq, Hself. }
  { apply Field_attrs_lookups. }
  cbn [heap calls] in Hrun, Hlen, Hframe, Hkids.
  rewrite length_insert in Hlen, Hframe, Hkids.
  exists cs, h'. split.
  - rewrite Field_init_unfold. fold s r'.
    destruct st as [h cl]. cbn [heap calls] in *.
    rewrite <- (list_insert_id h self o Ho) at 1.
    destruct o as [c0 d0]. cbn [cls dict] in *.
    rewrite !bind_setattr by exact Hself. exact Hrun.
  - split; [exact Hlen|]. split; [|split; [|split]].
    + rewrite Ho'. unfold o1, Field_attrs. cbn [cls dict].
      rewrite insert_insert_eq. reflexivity.
    + intros l Hl Hne. rewrite Hframe by assumption.
      apply list_lookup_insert_ne. congruence.
    + exact Hcs.
    + exact Hkids.
Qed.


(** ** [Form] *)

Lemma Form_buttons_acc buttons acc :
  Form_buttons buttons acc = acc ++ (as_button <$> buttons).
Proof.
  revert acc. induction buttons as [|[name|b] rest IH]; intros acc;
    cbn [Form_buttons fmap list_fmap as_button].
  - symmetry. apply app_nil_r.
  - rewrite IH, <- app_assoc. reflexivity.
  - rewrite IH, <- app_assoc. reflexivity.
Qed.

(** The attributes that [Form.__init__] adds to those of [Field.__init__]. *)
Lemma Form_init_run s r action method buttons self st o :
  heap st !! self = Some o ->
  exists cs h1,
    init_post (default default_renderer r) s self (heap st) o cs h1 /\
    Form_init s r action method buttons self st
    = (Ok tt,
       mkState
         (<[self :=
              mkObj (cls o)
                (<["widget" := VRef (length h1)]>
                   (<["buttons" :=
                        VButtons (as_button <$> default [] buttons)]>
                      (<["method" := VStr (default "POST" method)]>
                         (<["action" := VStr (default "." action)]>
                            (Field_attrs s (default default_renderer r) cs
                               (dict o))))))]>
            (h1 ++ [mkObj (ClsWidget FormWidget) ∅]))
         (calls st ++ [CallFormWidget])).
Proof.
  intros Ho.
  destruct (Field_init_run s r self st o Ho) as (cs & h1 & Hrun & Hpost).
  exists cs, h1. split; [exact Hpost|].
  destruct Hpost as (Hlen & Ho1 & _).
  assert (Hself : self < length h1) by (eapply lookup_lt_Some, Ho1).
  unfold Form_init. unfold bind at 1. rewrite Hrun.
  rewrite <- (list_insert_id h1 self _ Ho1) at 1.
  rewrite !bind_setattr by exact Hself.
  unfold bind at 1. rewrite new_widget_run. cbn [heap calls].
  rewrite length_insert.
  unfold setattr. cbn [heap calls].
  rewrite lookup_app_l by (rewrite length_insert; exact Hself).
  rewrite list_lookup_insert_eq by exact Hself. cbn [cls dict].
  rewrite Form_buttons_acc. cbn [app].
  rewrite insert_app_l by (rewrite length_insert; exact Hself).
  rewrite list_insert_insert_eq.
  rewrite insert_app_l by exact Hself. reflexivity.
Qed.



(** ** Cloning *)

Lemma ftree_induction (P : ftree -> Prop) :
  (forall l ks, Forall P ks -> P (FNode l ks)) -> forall t, P t.
Proof.
  intros step. fix IH 1. intros [l ks]. apply step.
  induction ks as [|k ks IHks]; constructor; [apply IH | exact IHks].
Qed.

Lemma all1_Forall {A} (P : A -> Prop) xs : all1 P xs <-> Forall P xs.
Proof.
  induction xs as [|x xs IH]; simpl.
  - split; constructor.
  - rewrite IH. split.
    + intros [? ?]. constructor; assumption.
    + inversion 1; subst. split; assumption.
Qed.

Lemma is_tree_unfold h l ks :
  is_tree h (FNode l ks) <->
  exists o s,
    h !! l = Some o /\
    match cls o with
    | ClsField => True
    | ClsForm => is_Some (dict o !! "widget")
    | ClsWidget _ => False
    end /\
    dict o !! "schema" = Some (VSchema s) /\
    dict o !! "children" = Some (VRefs (map root ks)) /\
    Forall (is_tree h) ks.
Proof.
  cbn [is_tree]. split; intros (o & s & H1 & H2 & H3 & H4 & H5);
    exists o, s; repeat (split; [assumption|]); apply all1_Forall, H5.
Qed.

Lemma clone_of_unfold h h' l ks l' ks' :
  clone_of h h' (FNode l ks) (FNode l' ks') <->
  exists o o',
    h !! l = Some o /\
    h' !! l' = Some o' /\
    cls o' = cls o /\
    (forall k v, k <> "children" ->
       dict o !! k = Some v -> dict o' !! k = Some v) /\
    (forall k, k = "widget" \/ k = "default" ->
       dict o !! k = None -> dict o' !! k = None) /\
    dict o' !! "children" = Some (VRefs (map root ks')) /\
    Forall2 (clone_of h h') ks ks'.
Proof.
  cbn [clone_of]. split; intros (o & o' & H1 & H2 & H3 & H4 & H5 & H6 & H7);
    exists o, o'; repeat (split; [assumption|]); apply all2_Forall2, H7.
Qed.

Lemma nodes_unfold l ks :
  forall x, x ∈ nodes (FNode l ks) <->
            x = l \/ exists k, k ∈ ks /\ x ∈ nodes k.
Proof.
  intros x. cbn [nodes]. rewrite elem_of_cons, list_elem_of_In, in_concat.
  split; (intros [Hx|Hx]; [left; exact Hx | right]).
  - destruct Hx as (ns & Hns & Hx).
    apply in_map_iff in Hns as (k & <- & Hk).
    exists k. split; apply list_elem_of_In; assumption.
  - destruct Hx as (k & Hk & Hx). exists (nodes k).
    apply list_elem_of_In in Hk. apply list_elem_of_In in Hx.
    split; [|exact Hx]. apply in_map. exact Hk.
Qed.

(** A tree of fields depends only on the objects at its nodes. *)
Lemma is_tree_frame h h' t :
  is_tree h t -> (forall l, l ∈ nodes t -> h' !! l = h !! l) -> is_tree h' t.
Proof.
  induction t as [l ks IH] using ftree_induction.
  intros (o & s & Ho & Hcls & Hs & Hc & Hks)%is_tree_unfold Hsame.
  apply is_tree_unfold. exists o, s.
  rewrite Hsame by (apply nodes_unfold; auto).
  repeat (split; [assumption|]).
  rewrite Forall_forall in IH, Hks |- *. intros k Hk.
  apply IH; [exact Hk | exact (Hks k Hk) |].
  intros x Hx. apply Hsame, nodes_unfold. eauto.
Qed.

Lemma is_tree_nodes_lt h t :
  is_tree h t -> forall l, l ∈ nodes t -> l < length h.
Proof.
  induction t as [l ks IH] using ftree_induction.
  intros (o & s & Ho & _ & _ & _ & Hks)%is_tree_unfold x
    [->|(k & Hk & Hx)]%nodes_unfold.
  - eapply lookup_lt_Some, Ho.
  - rewrite Forall_forall in IH, Hks. exact (IH k Hk (Hks k Hk) x Hx).
Qed.

Lemma clone_of_frame h0 h h' h'' t :
  forall t',
    clone_of h h' t t' ->
    (forall l, l ∈ nodes t -> h0 !! l = h !! l) ->
    (forall l, l ∈ nodes t' -> h'' !! l = h' !! l) ->
    clone_of h0 h'' t t'.
Proof.
  induction t as [l ks IH] using ftree_induction.
  intros [l' ks'] Hc Hsrc Hdst.
  apply clone_of_unfold in Hc
    as (o & o' & Ho & Ho' & Hcls & Hcopy & Hlazy & Hkids & Hks).
  apply clone_of_unfold. exists o, o'.
  rewrite Hsrc, Hdst by (apply nodes_unfold; auto).
  repeat (split; [assumption|]).
  clear Hkids. revert IH Hsrc Hdst.
  induction Hks as [|k k' ks ks' Hk _ IHks]; intros IH Hsrc Hdst;
    constructor.
  - inversion IH as [|? ? IHk _]; subst. apply IHk; [exact Hk | |].
    + intros x Hx. apply Hsrc, nodes_unfold. right. exists k.
      split; [left | exact Hx].
    + intros x Hx. apply Hdst, nodes_unfold. right. exists k'.
      split; [left | exact Hx].
  - inversion IH as [|? ? _ IHrest]; subst. apply IHks; [exact IHrest | |].
    + intros x [->|(k0 & Hk0 & Hx)]%nodes_unfold; apply Hsrc, nodes_unfold;
        [left; reflexivity | right].
      exists k0. split; [right; exact Hk0 | exact Hx].
    + intros x [->|(k0 & Hk0 & Hx)]%nodes_unfold; apply Hdst, nodes_unfold;
        [left; reflexivity | right].
      exists k0. split; [right; exact Hk0 | exact Hx].
Qed.

Lemma Forall2_clone_of_frame h0 h h' h'' ks ks' :
  Forall2 (clone_of h h') ks ks' ->
  (forall k l, k ∈ ks -> l ∈ nodes k -> h0 !! l = h !! l) ->
  (forall k' l, k' ∈ ks' -> l ∈ nodes k' -> h'' !! l = h' !! l) ->
  Forall2 (clone_of h0 h'') ks ks'.
Proof.
  induction 1 as [|k k' ks ks' Hk _ IH]; intros Hsrc Hdst; constructor.
  - eapply clone_of_frame; [exact Hk | |].
    + intros l Hl. eapply Hsrc; [left | exact Hl].
    + intros l Hl. eapply Hdst; [left | exact Hl].
  - apply IH.
    + intros t l Ht Hl. eapply Hsrc; [right; exact Ht | exact Hl].
    + intros t l Ht Hl. eapply Hdst; [right; exact Ht | exact Hl].
Qed.

(** Calling the class of a field on a schema node. *)
Lemma instantiate_run c s st :
  match c with
  | ClsWidget _ => False
  | _ => True
  end ->
  exists h1 d new,
    instantiate c s st
    = (Ok (length (heap st)), mkState h1 (calls st ++ new)) /\
    h1 !! length (heap st) = Some (mkObj c d) /\
    (forall l, l < length (heap st) -> h1 !! l = heap st !! l) /\
    length (heap st) < length h1 /\
    Forall (fun x => x = CallFormWidget) new /\
    d !! "default" = None /\
    (c = ClsField -> d !! "widget" = None).
Proof.
  intros Hc.
  set (self := length (heap st)).
  destruct c as [| |w]; [| |destruct Hc].
  - set (h0 := heap st ++ [mkObj ClsField ∅]).
    assert (Hlen0 : length h0 = S self)
      by (unfold h0; rewrite length_app; cbn; lia).
    destruct (Field_init_run s None self (mkState h0 (calls st))
                (mkObj ClsField ∅))
      as (cs & h1 & Hrun & Hlen1 & Ho1 & Hframe1 & _).
    { cbn [heap]. apply list_lookup_middle. reflexivity. }
    cbn [heap calls cls dict] in *.
    exists h1, (Field_attrs s default_renderer cs ∅), [].
    split; [|split; [|split; [|split; [|split; [|split]]]]].
    + cbn [instantiate]. unfold Field_new, bind at 1 2, alloc.
      fold self h0. rewrite Hrun, app_nil_r. reflexivity.
    + exact Ho1.
    + intros l Hl. rewrite Hframe1 by lia. apply lookup_app_l. exact Hl.
    + lia.
    + constructor.
    + unfold Field_attrs. by simplify_map_eq.
    + intros _. unfold Field_attrs. by simplify_map_eq.
  - set (h0 := heap st ++ [mkObj ClsForm ∅]).
    assert (Hlen0 : length h0 = S self)
      by (unfold h0; rewrite length_app; cbn; lia).
    destruct (Form_init_run s None None None None self
                (mkState h0 (calls st)) (mkObj ClsForm ∅))
      as (cs & h1 & (Hlen1 & Ho1 & Hframe1 & _) & Hrun).
    { cbn [heap]. apply list_lookup_middle. reflexivity. }
    cbn [heap calls cls dict] in *.
    eexists _, _, [CallFormWidget].
    split; [|split; [|split; [|split; [|split; [|split]]]]].
    + cbn [instantiate]. unfold Form_new, bind at 1 2, alloc.
      fold self h0. rewrite Hrun. reflexivity.
    + apply list_lookup_insert_eq. rewrite length_app. cbn. lia.
    + intros l Hl. rewrite list_lookup_insert_ne by lia.
      rewrite lookup_app_l by lia.
      rewrite Hframe1 by lia. apply lookup_app_l. exact Hl.
    + rewrite length_insert, length_app. cbn. lia.
    + repeat constructor.
    + unfold Field_attrs. by simplify_map_eq.
    + discriminate.
Qed.

Lemma dict_update_run dst src h cl d s :
  h !! dst = Some d ->
  h !! src = Some s ->
  dict_update dst src (mkState h cl)
  = (Ok tt, mkState (<[dst := mkObj (cls d) (dict s ∪ dict d)]> h) cl).
Proof.
  intros Hd Hs. unfold dict_update. cbn [heap calls]. rewrite Hd, Hs.
  reflexivity.
Qed.

(** The list comprehension of [clone] over the children, given that
    [clone] does its work on each of them. *)
Lemma clone_children_run n ks :
  Forall
    (fun t => forall limit st,
       is_tree (heap st) t -> depth t <= limit ->
       exists t' st',
         Field_clone limit (root t) st = (Ok (root t'), st') /\
         clone_post st t t' st') ks ->
  forall st,
    Forall (is_tree (heap st)) ks ->
    Forall (fun k => depth k <= n) ks ->
    exists ks' st',
      list_comp (Field_clone n) (map root ks) st = (Ok (map root ks'), st') /\
      Forall2 (clone_of (heap st) (heap st')) ks ks' /\
      Forall (is_tree (heap st')) ks' /\
      (forall l, l < length (heap st) -> heap st' !! l = heap st !! l) /\
      (forall k' l, k' ∈ ks' -> l ∈ nodes k' -> length (heap st) <= l) /\
      length (heap st) <= length (heap st') /\
      exists new,
        calls st' = calls st ++ new /\
        Forall (fun c => c = CallFormWidget) new.
Proof.
  induction 1 as [|k ks IHk _ IHks]; intros st Htrees Hdepth.
  - exists [], st. repeat split; try constructor; try done.
    + intros k' l Hk'. inversion Hk'.
    + exists []. split; [symmetry; apply app_nil_r | constructor].
  - inversion Htrees as [|? ? Hk Hks]; subst.
    inversion Hdepth as [|? ? Hdk Hdks]; subst.
    destruct (IHk n st Hk Hdk)
      as (k' & st_a & Hrun_a & Hclone_a & Htree_a & Hframe_a & Hfresh_a
          & Hlen_a & new_a & Hcalls_a & Hnew_a).
    assert (Hks_a : Forall (is_tree (heap st_a)) ks).
    { rewrite Forall_forall in Hks |- *. intros t Ht.
      eapply is_tree_frame; [exact (Hks t Ht)|].
      intros l Hl. apply Hframe_a.
      eapply is_tree_nodes_lt; [exact (Hks t Ht) | exact Hl]. }
    destruct (IHks st_a Hks_a Hdks)
      as (ks' & st_b & Hrun_b & Hclone_b & Htree_b & Hframe_b & Hfresh_b
          & Hlen_b & new_b & Hcalls_b & Hnew_b).
    exists (k' :: ks'), st_b.
    split; [|split; [|split; [|split; [|split; [|split]]]]].
    + cbn [map list_comp]. unfold bind at 1. rewrite Hrun_a.
      unfold bind at 1. rewrite Hrun_b. reflexivity.
    + constructor.
      * eapply clone_of_frame; [exact Hclone_a | reflexivity |].
        intros l Hl. apply Hframe_b.
        eapply is_tree_nodes_lt; [exact Htree_a | exact Hl].
      * rewrite Forall_forall in Hks.
        eapply Forall2_clone_of_frame; [exact Hclone_b | | reflexivity].
        intros t l Ht Hl. symmetry. apply Hframe_a.
        eapply is_tree_nodes_lt; [exact (Hks t Ht) | exact Hl].
    + constructor; [|exact Htree_b].
      eapply is_tree_frame; [exact Htree_a|].
      intros l Hl. apply Hframe_b.
      eapply is_tree_nodes_lt; [exact Htree_a | exact Hl].
    + intros l Hl. rewrite Hframe_b by lia. apply Hframe_a, Hl.
    + intros t l [->|Ht]%elem_of_cons Hl.
      * apply Hfresh_a, Hl.
      * specialize (Hfresh_b t l Ht Hl). lia.
    + lia.
    + exists (new_a ++ new_b). split.
      * rewrite Hcalls_b, Hcalls_a, app_assoc. reflexivity.
      * apply Forall_app. split; assumption.
Qed.

(** [clone] returns on every tree of fields that is not deeper than the
    recursion limit. *)
Lemma Field_clone_run t :
  forall limit st,
    is_tree (heap st) t -> depth t <= limit ->
    exists t' st',
      Field_clone limit (root t) st = (Ok (root t'), st') /\
      clone_post st t t' st'.
Proof.
  induction t as [l ks IH] using ftree_induction.
  intros [|n] st Htree Hdepth; [cbn [depth] in Hdepth; lia|].
  pose proof Htree as Htree0.
  apply is_tree_unfold in Htree as (o & s & Ho & Hcls & Hs & Hc & Hks).
  assert (Hl : l < length (heap st)) by (eapply lookup_lt_Some, Ho).
  assert (Hdks : Forall (fun k => depth k <= n) ks).
  { apply Forall_forall. intros k Hk. cbn [depth] in Hdepth.
    assert (depth k <= max_list (map depth ks)); [|lia].
    apply max_list_elem_of_le, list_elem_of_In, in_map, list_elem_of_In, Hk. }
  destruct (instantiate_run (cls o) s st)
    as (h1 & d & new1 & Hrun1 & Ho1 & Hframe1 & Hlen1 & Hnew1 & Hdef & Hwid).
  { destruct (cls o); [exact I | exact I | exact Hcls]. }
  set (c := length (heap st)) in *.
  set (h2 := <[c := mkObj (cls o) (dict o ∪ d)]> h1).
  assert (Hlen2 : length h2 = length h1) by apply length_insert.
  assert (Hframe2 : forall x, x < c -> h2 !! x = heap st !! x).
  { intros x Hx. unfold h2. rewrite list_lookup_insert_ne by lia.
    apply Hframe1, Hx. }
  destruct (clone_children_run n ks IH
              (mkState h2 (calls st ++ new1)))
    as (ks' & st_b & Hrun_b & Hclone_b & Htree_b & Hframe_b & Hfresh_b
        & Hlen_b & new_b & Hcalls_b & Hnew_b).
  { cbn [heap]. rewrite Forall_forall in Hks |- *. intros k Hk.
    eapply is_tree_frame; [exact (Hks k Hk)|].
    intros x Hx. apply Hframe2.
    eapply is_tree_nodes_lt; [exact (Hks k Hk) | exact Hx]. }
  { exact Hdks. }
  cbn [heap calls] in Hframe_b, Hfresh_b, Hlen_b, Hcalls_b, Hclone_b.
  set (o' := mkObj (cls o)
               (<["children" := VRefs (map root ks')]> (dict o ∪ d))).
  set (h3 := <[c := o']> (heap st_b)).
  assert (Hc_b : heap st_b !! c = Some (mkObj (cls o) (dict o ∪ d))).
  { rewrite Hframe_b by lia. unfold h2. apply list_lookup_insert_eq. lia. }
  assert (Hfresh' : forall k' x, k' ∈ ks' -> x ∈ nodes k' -> c < x).
  { intros k' x Hk' Hx. specialize (Hfresh_b k' x Hk' Hx). lia. }
  exists (FNode c ks'), (mkState h3 (calls st_b)).
  split; [|split; [|split; [|split; [|split; [|split]]]]].
  - cbn [root Field_clone]. unfold bind at 1, read_obj. rewrite Ho.
    unfold bind at 1.
    rewrite (get_schema_run st l s) by (apply attr_lookup; eauto).
    unfold bind at 1. rewrite Hrun1. fold c.
    unfold bind at 1.
    rewrite (dict_update_run c l h1 _ (mkObj (cls o) d) o Ho1)
      by (rewrite Hframe1 by exact Hl; exact Ho).
    cbn [cls dict]. fold h2.
    unfold bind at 1.
    rewrite (getattr_run _ l "children" (VRefs (map root ks))).
    2:{ cbn [heap]. apply attr_lookup. exists o. split; [|exact Hc].
        rewrite Hframe2 by exact Hl. exact Ho. }
    unfold bind at 1. rewrite Hrun_b.
    unfold bind at 1, setattr. rewrite Hc_b. reflexivity.
  - cbn [heap]. apply clone_of_unfold. exists o, o'.
    split; [exact Ho|]. split.
    { unfold h3. apply list_lookup_insert_eq. lia. }
    split; [reflexivity|]. split; [|split; [|split]].
    + intros k v Hk Hv. unfold o'. cbn [dict].
      rewrite lookup_insert_ne by congruence.
      apply lookup_union_Some_l, Hv.
    + intros k Hk Hnone. unfold o'. cbn [dict].
      rewrite lookup_insert_ne by (destruct Hk as [-> | ->]; discriminate).
      apply lookup_union_None. split; [exact Hnone|].
      destruct Hk as [-> | ->]; [|exact Hdef].
      destruct (cls o) eqn:Ecls.
      * apply Hwid. reflexivity.
      * destruct Hcls as [v Hv]. congruence.
      * destruct Hcls.
    + unfold o'. cbn [dict]. apply lookup_insert_eq.
    + rewrite Forall_forall in Hks.
      eapply Forall2_clone_of_frame; [exact Hclone_b | |].
      * intros t x Ht Hx. symmetry. apply Hframe2.
        eapply is_tree_nodes_lt; [exact (Hks t Ht) | exact Hx].
      * intros t x Ht Hx. unfold h3. apply list_lookup_insert_ne.
        specialize (Hfresh' t x Ht Hx). lia.
  - cbn [heap]. apply is_tree_unfold. exists o', s.
    split; [unfold h3; apply list_lookup_insert_eq; lia|].
    split; [|split; [|split]].
    + unfold o'. cbn [cls dict]. destruct (cls o); [exact I | | exact Hcls].
      destruct Hcls as [v Hv]. exists v.
      rewrite lookup_insert_ne by discriminate.
      apply lookup_union_Some_l, Hv.
    + unfold o'. cbn [dict]. rewrite lookup_insert_ne by discriminate.
      apply lookup_union_Some_l, Hs.
    + unfold o'. cbn [dict]. apply lookup_insert_eq.
    + rewrite Forall_forall in Htree_b |- *. intros k' Hk'.
      eapply is_tree_frame; [exact (Htree_b k' Hk')|].
      intros x Hx. unfold h3. apply list_lookup_insert_ne.
      specialize (Hfresh' k' x Hk' Hx). lia.
  - cbn [heap]. intros x Hx. unfold h3.
    rewrite list_lookup_insert_ne by lia.
    rewrite Hframe_b by lia. apply Hframe2, Hx.
  - cbn [heap]. intros x [->|(k' & Hk' & Hx)]%nodes_unfold; [lia|].
    specialize (Hfresh' k' x Hk' Hx). lia.
  - cbn [heap]. unfold h3. rewrite length_insert. lia.
  - cbn [calls]. exists (new1 ++ new_b). split.
    + rewrite Hcalls_b, app_assoc. reflexivity.
    + apply Forall_app. split; assumption.
Qed.

(** C3: on a tree of fields no deeper than the recursion limit, [clone]
    returns the root of a tree of new fields that is a clone of it: every
    node has the class of its source, every attribute of the source other
    than [children] (the schema reference, an assigned or already computed
    [widget] or [default], ...) with the same value, no [widget] or
    [default] where the source has none, and the clones of the source's
    children as children.  The store that existed before is unchanged, the
    only calls made are those of [FormWidget] by [Form.__init__], and an
    attribute assigned afterwards on a node of one tree leaves every node
    of the other as it is. *)
Theorem Field_clone_spec limit st t :
  is_tree (heap st) t ->
  depth t <= limit ->
  exists t' st',
    Field_clone limit (root t) st = (Ok (root t'), st') /\
    clone_of (heap st) (heap st') t t' /\
    is_tree (heap st') t' /\
    (forall l, l < length (heap st) -> heap st' !! l = heap st !! l) /\
    (exists new,
       calls st' = calls st ++ new /\
       Forall (fun c => c = CallFormWidget) new) /\
    (forall l l' k v,
       l ∈ nodes t -> l' ∈ nodes t' ->
       l <> l' /\
       (exists st'',
          setattr l' k v st' = (Ok tt, st'') /\
          heap st'' !! l = heap st !! l) /\
       (exists st'',
          setattr l k v st' = (Ok tt, st'') /\
          heap st'' !! l' = heap st' !! l')).
Proof.
  intros Htree Hdepth.
  destruct (Field_clone_run t limit st Htree Hdepth)
    as (t' & st' & Hrun & Hclone & Htree' & Hframe & Hfresh & Hlen & Hcalls).
  exists t', st'. repeat (split; [assumption|]).
  intros l l' k v Hl Hl'.
  assert (Hlt : l < length (heap st))
    by (eapply is_tree_nodes_lt; [exact Htree | exact Hl]).
  assert (Hlt' : l' < length (heap st'))
    by (eapply is_tree_nodes_lt; [exact Htree' | exact Hl']).
  specialize (Hfresh l' Hl').
  assert (Hne : l <> l') by lia.
  destruct (lookup_lt_is_Some_2 (heap st') l' Hlt') as [o' Ho'].
  destruct (lookup_lt_is_Some_2 (heap st') l ltac:(lia)) as [o Ho].
  split; [exact Hne|]. split.
  - eexists. split; [apply (setattr_run _ _ _ _ _ Ho')|].
    cbn [heap]. unfold store_attr. rewrite Ho'.
    rewrite list_lookup_insert_ne by congruence. apply Hframe, Hlt.
  - eexists. split; [apply (setattr_run _ _ _ _ _ Ho)|].
    cbn [heap]. unfold store_attr. rewrite Ho.
    apply list_lookup_insert_ne. exact Hne.
Qed.

(** ** The theorems at concrete inputs *)

(** Cloning the form of [Examples.color_form] (the form at 0, its widget
    at 1): [Form.__init__] runs again and calls [FormWidget], and the clone
    at 2 carries the widget of its source, not the new one at 3. *)
Example Form_clone_keeps_widget :
  fst (Field_clone 1 0 Examples.color_form) = Ok 2 /\
  calls (snd (Field_clone 1 0 Examples.color_form))
    = [CallFormWidget; CallFormWidget] /\
  attr (heap (snd (Field_clone 1 0 Examples.color_form))) 2 "widget"
    = Some (VRef 1) /\
  class_of (heap (snd (Field_clone 1 0 Examples.color_form))) 2
    = Some ClsForm.
Proof. repeat split; vm_compute; reflexivity. Qed.

(** Beyond the recursion limit [clone] raises. *)
Example Field_clone_too_deep :
  fst (Field_clone 1 0 Examples.twins_built) = Raise RecursionError.
Proof. vm_compute. reflexivity. Qed.

Lemma Field_validate_pipeline_witness :
  Field_validate Examples.colander 0 Examples.red Examples.color_built
  = (Ok (PMap Examples.red),
     mkState (heap Examples.red_read)
       (calls Examples.red_read ++
        [CallWidgetDeserialize (VRef 1) 0 (PMap Examples.red);
         CallSchemaDeserialize Examples.color (PMap Examples.red)])) /\
  Field_validate Examples.colander 0 Examples.nothing Examples.color_built
  = (Raise (ValidationFailure 0 (PMap Examples.nothing) (PStr "Required")),
     mkState
       (store_attr 0 "error" (VData (PStr "Required"))
          (heap Examples.nothing_rejected))
       (calls Examples.nothing_rejected ++
        [CallHandleError (VRef 1) 0 (PStr "Required")])).
Proof.
  split.
  - refine (proj1 (proj2
              (Field_validate_pipeline Examples.colander 0 Examples.red
                 Examples.color_built (PMap Examples.red) (VRef 1)
                 Examples.red_read (PMap Examples.red)
                 (heap Examples.red_read) Examples.color _ _ _ _)) _ _);
      vm_compute; reflexivity.
  - refine (proj2 (proj2
              (Field_validate_pipeline Examples.colander 0
                 Examples.nothing Examples.color_built
                 (PMap Examples.nothing) (VRef 1) Examples.nothing_read
                 (PMap Examples.nothing) (heap Examples.nothing_read)
                 Examples.color _ _ _ _)) _ _ _ _ _ _ _);
      vm_compute; reflexivity.
Defined.

Lemma Field_lazy_attributes_witness :
  exists st1,
    Field_widget 0 Examples.color_built = (Ok (VRef 1), st1) /\
    calls st1 = [CallTextInputWidget] /\
    forall n, read_times (Field_widget 0) n st1
              = (Ok (replicate n (VRef 1)), st1).
Proof.
  assert (Ho : heap Examples.color_built !! 0 = Some Examples.color_field)
    by (vm_compute; reflexivity).
  assert (Hs : dict Examples.color_field !! "schema"
               = Some (VSchema Examples.color))
    by (vm_compute; reflexivity).
  assert (Hw : dict Examples.color_field !! "widget" = None)
    by (vm_compute; reflexivity).
  destruct (proj1 (Field_lazy_attributes Examples.color_built 0
                     Examples.color_field Examples.color Ho Hs) Hw)
    as (st1 & Hrun & _ & Hcalls & Hagain).
  exists st1. split; [exact Hrun|]. split; [exact Hcalls | exact Hagain].
Defined.

Lemma Field_validate_outcomes_witness :
  fst (Field_validate Examples.broken 0 Examples.red Examples.color_built)
  = Raise (OtherError 1).
Proof.
  apply (proj1 (Field_validate_outcomes Examples.broken 0 Examples.red
                  Examples.color_built)).
  reflexivity.
Defined.

Lemma Field_validate_success_frame_witness :
  exists p w st1 c,
    Field_widget 0 (after_parse Examples.red Examples.color_built)
    = (Ok w, st1) /\
    widget_deserialize Examples.colander w 0 p (heap st1)
    = (Ok c,
       heap (snd (Field_validate Examples.colander 0 Examples.red
                    Examples.color_built))) /\
    forall l, l <> 0 ->
      attr (heap st1) l "error" = attr (heap Examples.color_built) l "error".
Proof.
  destruct (Field_validate_success_frame Examples.colander 0 Examples.red
              Examples.color_built (PMap Examples.red)
              (snd (Field_validate Examples.colander 0 Examples.red
                      Examples.color_built)))
    as (p & w & st1 & c & _ & Hw & Hc & _ & Hframe & _).
  { vm_compute. reflexivity. }
  exists p, w, st1, c. split; [exact Hw|]. split; [exact Hc|].
  intros l Hl. apply Hframe. congruence.
Defined.

Lemma Field_clone_spec_witness :
  exists t' st',
    Field_clone 2 0 Examples.twins_built = (Ok (root t'), st') /\
    clone_of (heap Examples.twins_built) (heap st') Examples.twins_tree t' /\
    forall l, l < length (heap Examples.twins_built) ->
      heap st' !! l = heap Examples.twins_built !! l.
Proof.
  assert (Htree : is_tree (heap Examples.twins_built) Examples.twins_tree).
  { assert (Hleaf : forall l s,
              heap Examples.twins_built !! l
              = Some (mkObj ClsField (Field_attrs s default_renderer [] ∅)) ->
              is_tree (heap Examples.twins_built) (FNode l [])).
    { intros l s Hl. apply is_tree_unfold. eexists _, s.
      split; [exact Hl|]. split; [exact I|].
      split; [apply Field_attrs_lookups|].
      split; [apply Field_attrs_lookups | constructor]. }
    apply is_tree_unfold.
    exists (mkObj ClsField
              (Field_attrs Examples.twins default_renderer [1; 2] ∅)),
      Examples.twins.
    split; [vm_compute; reflexivity|]. split; [exact I|].
    split; [apply Field_attrs_lookups|].
    split; [apply Field_attrs_lookups|].
    constructor; [|constructor; [|constructor]].
    - apply (Hleaf 1 (Examples.leaf "x" "first" None)).
      vm_compute. reflexivity.
    - apply (Hleaf 2 (Examples.leaf "x" "second" (Some 7))).
      vm_compute. reflexivity. }
  destruct (Field_clone_spec 2 Examples.twins_built Examples.twins_tree Htree)
    as (t' & st' & Hrun & Hclone & _ & Hframe & _).
  { vm_compute. lia. }
  exists t', st'. split; [exact Hrun|]. split; [exact Hclone | exact Hframe].
Defined.

(** * Further properties of the module *)

(** ** Lookup reads and nothing else *)

Lemma getattr_state l k st : snd (getattr l k st) = st.
Proof.
  unfold getattr, bind, read_obj, ret, raise.
  destruct (heap st !! l) as [o|]; [|reflexivity].
  destruct (dict o !! k); [reflexivity|].
  destruct (class_attr (cls o) k); reflexivity.
Qed.

Lemma getattr_result l k st :
  getattr l k st = (fst (getattr l k st), st).
Proof.
  rewrite <- (getattr_state l k st) at 3. apply surjective_pairing.
Qed.

Lemma find_child_state name cs st :
  snd (find_child name cs st) = st /\
  (forall n, fst (find_child name cs st) = Raise (KeyError n) -> n = name) /\
  (forall c, fst (find_child name cs st) = Ok c -> c ∈ cs).
Proof.
  induction cs as [|c cs IH]; cbn [find_child].
  - repeat split; cbn; [congruence | discriminate].
  - unfold bind. rewrite (getattr_result c "name" st).
    destruct (fst (getattr c "name" st)) as [v|x] eqn:Hv.
    + destruct (name_eqb v name).
      * repeat split; cbn; [discriminate|]. intros ? [= <-]. left.
      * destruct IH as (IH1 & IH2 & IH3).
        repeat split; [assumption..|]. intros d Hd. right. auto.
    + repeat split; cbn; [|discriminate].
      intros n [= ->]. revert Hv.
      unfold getattr, bind, read_obj, ret, raise.
      destruct (heap st !! c) as [o|]; [|discriminate].
      destruct (dict o !! "name"); [discriminate|].
      destruct (class_attr (cls o) "name"); discriminate.
Qed.

(** X1: [field[name]] only reads: whatever it returns or raises, the store
    and the log of calls are as before (no widget is computed, no attribute
    written); a [KeyError] it raises carries the requested name, and a
    field it returns is one of the references held in [children]. *)
Theorem Field_getitem_readonly self name st :
  snd (Field_getitem self name st) = st /\
  (forall n, fst (Field_getitem self name st) = Raise (KeyError n) ->
     n = name) /\
  (forall c, fst (Field_getitem self name st) = Ok c ->
     exists cs, attr (heap st) self "children" = Some (VRefs cs) /\ c ∈ cs).
Proof.
  unfold Field_getitem, bind. rewrite (getattr_result self "children" st).
  destruct (fst (getattr self "children" st)) as [v|x] eqn:Hv.
  - assert (Hattr : attr (heap st) self "children" = Some v).
    { revert Hv. unfold getattr, bind, read_obj, ret, raise, attr.
      destruct (heap st !! self) as [o|]; [|discriminate].
      destruct (dict o !! "children"); [intros [= ->]; reflexivity|].
      destruct (cls o); discriminate. }
    destruct v; try (repeat split; cbn; discriminate).
    destruct (find_child_state name ls st) as (H1 & H2 & H3).
    repeat split; [assumption..|]. intros c Hc. exists ls. auto.
  - repeat split; cbn; [|discriminate].
    intros n [= ->]. revert Hv.
    unfold getattr, bind, read_obj, ret, raise.
    destruct (heap st !! self) as [o|]; [|discriminate].
    destruct (dict o !! "children"); [discriminate|].
    destruct (class_attr (cls o) "children"); discriminate.
Qed.

(** ** Lookup in a constructed field *)

Lemma mirrors_children h r s l :
  mirrors h r s l ->
  exists cs,
    attr h l "children" = Some (VRefs cs) /\
    Forall2 (fun s' c => class_of h c = Some ClsField /\ mirrors h r s' c)
      (schema_children s) cs.
Proof.
  intros (o & cs & Ho & _ & _ & _ & _ & _ & _ & Hc & _ & Hkids)%mirrors_unfold.
  exists cs. split; [apply attr_lookup; eauto|].
  apply all2_Forall2. eapply all2_impl; [exact Hkids|].
  intros s' c (_ & Hcls & Hm). auto.
Qed.

Lemma mirrors_name h r s l :
  mirrors h r s l -> attr h l "name" = Some (VStr (schema_name s)).
Proof.
  intros (o & cs & Ho & _ & _ & Hn & _)%mirrors_unfold.
  apply attr_lookup. eauto.
Qed.

Lemma has_name_mirrors h r s l name :
  mirrors h r s l -> has_name h name l = bool_decide (schema_name s = name).
Proof.
  intros Hn%mirrors_name. unfold has_name. rewrite Hn. reflexivity.
Qed.

Lemma find_none_mirrors h r name ss cs :
  Forall2 (fun s' c => class_of h c = Some ClsField /\ mirrors h r s' c)
    ss cs ->
  List.find (has_name h name) cs = None
  <-> Forall (fun s' => schema_name s' <> name) ss.
Proof.
  induction 1 as [|s' c ss cs [_ Hm] _ IH]; cbn [List.find].
  - split; [constructor | reflexivity].
  - rewrite (has_name_mirrors h r s' c name Hm).
    destruct (decide (schema_name s' = name)) as [Heq|Hne].
    + rewrite bool_decide_eq_true_2 by exact Heq.
      split; [discriminate|]. inversion 1; contradiction.
    + rewrite bool_decide_eq_false_2 by exact Hne. rewrite IH.
      split; [constructor; assumption | inversion 1; assumption].
Qed.


Lemma mirrors_getitem_run h cl r s l name :
  mirrors h r s l ->
  exists cs,
    Forall2 (fun s' c => class_of h c = Some ClsField /\ mirrors h r s' c)
      (schema_children s) cs /\
    Field_getitem l name (mkState h cl)
    = (match List.find (has_name h name) cs with
       | Some c => Ok c
       | None => Raise (KeyError name)
       end, mkState h cl).
Proof.
  intros Hm. destruct (mirrors_children h r s l Hm) as (cs & Hcs & Hkids).
  exists cs. split; [exact Hkids|].
  apply (Field_getitem_run (mkState h cl) l name cs Hcs).
  cbn [heap]. clear Hcs.
  induction Hkids as [|s' c ss cs' [_ Hc] _ IH]; constructor; [|exact IH].
  rewrite (mirrors_name h r s' c Hc). eauto.
Qed.

Lemma Field_new_run s r st :
  exists st',
    Field_new s r st = (Ok (length (heap st)), st') /\
    mirrors (heap st') (default default_renderer r) s (length (heap st)) /\
    class_of (heap st') (length (heap st)) = Some ClsField.
Proof.
  set (self := length (heap st)).
  set (h0 := heap st ++ [mkObj ClsField ∅]).
  destruct (Field_init_run s r self (mkState h0 (calls st)) (mkObj ClsField ∅))
    as (cs & h' & Hrun & Hpost).
  { cbn [heap]. apply list_lookup_middle. reflexivity. }
  cbn [heap calls] in Hrun, Hpost.
  exists (mkState h' (calls st)). split.
  - unfold Field_new, bind at 1 2, alloc. fold self h0. rewrite Hrun.
    reflexivity.
  - cbn [heap]. split.
    + eapply init_post_mirrors; [|exact Hpost].
      unfold h0. rewrite length_app. cbn. lia.
    + destruct Hpost as (_ & Ho & _). unfold class_of. rewrite Ho.
      reflexivity.
Qed.

(** X2: in the field that [Field(schema, renderer)] returns, [field[name]]
    raises [KeyError(name)] exactly when no child of the schema node is
    named [name]. *)
Theorem Field_new_getitem_KeyError s r st name :
  exists st',
    Field_new s r st = (Ok (length (heap st)), st') /\
    (Field_getitem (length (heap st)) name st' = (Raise (KeyError name), st')
     <-> Forall (fun s' => schema_name s' <> name) (schema_children s)).
Proof.
  destruct (Field_new_run s r st) as ([h' cl'] & Hrun & Hm & _).
  exists (mkState h' cl'). split; [exact Hrun|]. cbn [heap] in Hm.
  destruct (mirrors_getitem_run h' cl' _ s _ name Hm) as (cs & Hkids & Hget).
  rewrite Hget, <- (find_none_mirrors h' _ name _ cs Hkids).
  destruct (List.find (has_name h' name) cs); split; congruence.
Qed.



(** ** What construction writes *)

Lemma writes_only_ret {A} W (a : A) : writes_only W (ret a).
Proof. intros st l k _. reflexivity. Qed.

Lemma writes_only_raise {A} W e : writes_only W (@raise A e).
Proof. intros st l k _. reflexivity. Qed.

Lemma writes_only_bind {A B} W (m : M A) (f : A -> M B) :
  writes_only W m -> (forall a, writes_only W (f a)) ->
  writes_only W (bind m f).
Proof.
  intros Hm Hf st l k HW. specialize (Hm st l k HW). unfold bind.
  destruct (m st) as [[a|e] st1]; cbn [snd] in *; [|exact Hm].
  rewrite (Hf a st1 l k HW). exact Hm.
Qed.

Lemma writes_only_mono {A} (W W' : loc -> string -> Prop) (m : M A) :
  (forall l k, W l k -> W' l k) -> writes_only W m -> writes_only W' m.
Proof. intros Hsub Hm st l k HW. apply Hm. intros H. apply HW, Hsub, H. Qed.

Lemma writes_only_setattr (W : loc -> string -> Prop) l k v :
  W l k -> writes_only W (setattr l k v).
Proof.
  intros HW st l' k' HW'. unfold setattr.
  destruct (heap st !! l) as [o|] eqn:Ho; [|reflexivity].
  cbn [snd heap].
  assert (Hne : (l', k') <> (l, k)) by (intros [= -> ->]; contradiction).
  pose proof (attr_store_attr_ne (heap st) l k v l' k' Hne) as H.
  unfold store_attr in H. rewrite Ho in H. exact H.
Qed.

Lemma writes_only_alloc W c : writes_only W (alloc c).
Proof. intros st l k _. cbn. apply attr_app_new. Qed.

Lemma writes_only_log W c : writes_only W (log c).
Proof. intros st l k _. reflexivity. Qed.

Lemma writes_only_getattr W l k : writes_only W (getattr l k).
Proof. intros st l' k' _. rewrite getattr_state. reflexivity. Qed.

Lemma writes_only_new_widget W w : writes_only W (new_widget w).
Proof.
  unfold new_widget. apply writes_only_bind; [apply writes_only_log|].
  intros _. apply writes_only_bind; [apply writes_only_alloc|].
  intros l. apply writes_only_ret.
Qed.

Lemma writes_only_children_append (W : loc -> string -> Prop) l c :
  W l "children" -> writes_only W (children_append l c).
Proof.
  intros HW. unfold children_append.
  apply writes_only_bind; [apply writes_only_getattr|].
  intros v. destruct v; try apply writes_only_raise.
  apply writes_only_setattr, HW.
Qed.

Lemma writes_only_for_each {A} W (body : A -> M unit) xs :
  Forall (fun x => writes_only W (body x)) xs ->
  writes_only W (for_each body xs).
Proof.
  induction 1 as [|x xs Hx _ IH]; cbn [for_each].
  - apply writes_only_ret.
  - apply writes_only_bind; [exact Hx | intros _; exact IH].
Qed.

Lemma field_key_children : "children" ∈ field_keys.
Proof. unfold field_keys. repeat constructor. Qed.

(** [Field.__init__] assigns its seven attributes, on the instance and on
    the children it creates, and nothing else. *)
Lemma Field_init_writes_only s r :
  forall self,
    writes_only (fun _ k => k ∈ field_keys) (Field_init s r self).
Proof.
  induction s as [n t d rq ty sd ss IH] using SchemaNode_induction.
  intros self. rewrite Field_init_unfold.
  repeat (apply writes_only_bind;
          [apply writes_only_setattr; unfold field_keys; repeat constructor
          |intros _]).
  apply writes_only_for_each. cbn [schema_children].
  eapply Forall_impl; [exact IH|]. intros child Hchild. cbn beta.
  apply writes_only_bind; [apply writes_only_alloc|]. intros c.
  apply writes_only_bind; [apply Hchild|]. intros _.
  apply writes_only_children_append, field_key_children.
Qed.

Lemma attr_beyond h l k : length h <= l -> attr h l k = None.
Proof.
  intros Hl. unfold attr. rewrite (proj2 (lookup_ge_None h l)) by exact Hl.
  reflexivity.
Qed.

(** X4: [Field(schema, renderer)] assigns no attribute other than [schema],
    [renderer], [name], [title], [description], [required] and [children],
    on any object; so no field of the new tree has a [widget], a [default]
    or an [error] of its own when the constructor returns: nothing lazy is
    computed at construction, at any depth. *)
Theorem Field_new_writes_only s r st :
  (forall l k,
     k ∉ field_keys ->
     attr (heap (snd (Field_new s r st))) l k = attr (heap st) l k) /\
  (forall l,
     length (heap st) <= l ->
     attr (heap (snd (Field_new s r st))) l "widget" = None /\
     attr (heap (snd (Field_new s r st))) l "default" = None /\
     attr (heap (snd (Field_new s r st))) l "error" = None).
Proof.
  assert (H : writes_only (fun _ k => k ∈ field_keys) (Field_new s r)).
  { unfold Field_new. apply writes_only_bind; [apply writes_only_alloc|].
    intros self. apply writes_only_bind; [apply Field_init_writes_only|].
    intros _. apply writes_only_ret. }
  split.
  - intros l k Hk. apply H, Hk.
  - intros l Hl.
    assert (Hnot : forall k, k ∈ ["widget"; "default"; "error"] ->
                     k ∉ field_keys).
    { intros k Hk Hin. unfold field_keys in Hin.
      repeat (apply elem_of_cons in Hk as [-> | Hk]);
        [..| by apply elem_of_nil in Hk];
        repeat (apply elem_of_cons in Hin as [Hin | Hin];
                [discriminate|]);
        by apply elem_of_nil in Hin. }
    rewrite !H by (apply Hnot; repeat constructor).
    rewrite !attr_beyond by exact Hl. auto.
Qed.

(** [Form.__init__] assigns, besides what [Field.__init__] assigns, its
    own [action], [method], [buttons] and [widget]. *)
Lemma Form_init_writes_only s r action method buttons self :
  writes_only (fun l k => k ∈ field_keys \/ (l = self /\ k ∈ form_keys))
    (Form_init s r action method buttons self).
Proof.
  unfold Form_init.
  apply writes_only_bind.
  { eapply writes_only_mono; [|apply Field_init_writes_only]. auto. }
  intros _.
  repeat (apply writes_only_bind;
          [apply writes_only_setattr; right; split; [reflexivity|];
           unfold form_keys; repeat constructor
          |intros _]).
  apply writes_only_bind; [apply writes_only_new_widget|]. intros w.
  apply writes_only_setattr. right. split; [reflexivity|].
  unfold form_keys. repeat constructor.
Qed.

(** X5: [Form(...)] assigns [action], [method], [buttons] and [widget] on
    the new form only; on every other object it assigns at most the seven
    attributes of [Field.__init__].  So when the constructor returns, the
    form is the only new object that has a widget: the widgets of all the
    fields below it are still to be computed. *)
Theorem Form_new_writes_only s r action method buttons st :
  (forall l k,
     k ∉ field_keys ->
     l <> length (heap st) \/ k ∉ form_keys ->
     attr (heap (snd (Form_new s r action method buttons st))) l k
     = attr (heap st) l k) /\
  (forall l,
     length (heap st) < l ->
     attr (heap (snd (Form_new s r action method buttons st))) l "widget"
     = None).
Proof.
  assert (H : forall l k,
            ~ (k ∈ field_keys \/ (l = length (heap st) /\ k ∈ form_keys)) ->
            attr (heap (snd (Form_new s r action method buttons st))) l k
            = attr (heap st) l k).
  { intros l k HW.
    assert (Hw := writes_only_bind _ _ (fun _ => ret (length (heap st)))
                    (Form_init_writes_only s r action method buttons
                       (length (heap st)))
                    (fun _ => writes_only_ret _ _)
                    (mkState (heap st ++ [mkObj ClsForm ∅]) (calls st))
                    l k HW).
    cbn [heap] in Hw. rewrite attr_app_new in Hw. exact Hw. }
  split.
  - intros l k Hk Hor. apply H. intros [Hin | [-> Hin]]; tauto.
  - intros l Hl. rewrite H.
    + apply attr_beyond. lia.
    + intros [Hin | [-> _]]; [|lia].
      unfold field_keys in Hin.
      repeat (apply elem_of_cons in Hin as [Hin | Hin]; [discriminate|]).
      by apply elem_of_nil in Hin.
Qed.

(** ** Rendering *)

Lemma Field_widget_stored self st w st1 :
  Field_widget self st = (Ok w, st1) ->
  attr (heap st1) self "widget" = Some w.
Proof.
  intros [[Hw ->] | (o & s & Ho & _ & _ & -> & ->)]%Field_widget_inv;
    [exact Hw|].
  cbn [heap]. apply attr_store_attr_eq. rewrite length_app.
  apply lookup_lt_Some in Ho. lia.
Qed.

Lemma Field_render_cached E self cstruct st w :
  attr (heap st) self "widget" = Some w ->
  Field_render E self cstruct st
  = (fst (widget_serialize E w self (default PNone cstruct) (heap st)),
     mkState (snd (widget_serialize E w self (default PNone cstruct)
                     (heap st)))
       (calls st)).
Proof.
  intros Hw. unfold Field_render, bind, lift_heap.
  rewrite (Field_widget_cached _ _ _ Hw).
  destruct (widget_serialize E w self (default PNone cstruct) (heap st)).
  reflexivity.
Qed.

(** X6: a field is rendered by one and the same widget every time.  On a
    field that refers to a schema node, [render] hands the cstruct ([None]
    when omitted) to the [serialize] of the field's widget, computing and
    storing that widget first if the field has none; as long as [serialize]
    leaves the field's [widget] attribute alone, the next [render] goes to
    the same widget and calls nothing else. *)
Theorem Field_render_twice E self c1 c2 st o s :
  heap st !! self = Some o ->
  dict o !! "schema" = Some (VSchema s) ->
  (forall w c h,
     attr (snd (widget_serialize E w self c h)) self "widget"
     = attr h self "widget") ->
  exists w st1,
    Field_widget self st = (Ok w, st1) /\
    Field_render E self c1 st
    = (fst (widget_serialize E w self (default PNone c1) (heap st1)),
       mkState (snd (widget_serialize E w self (default PNone c1) (heap st1)))
         (calls st1)) /\
    Field_render E self c2 (snd (Field_render E self c1 st))
    = (fst (widget_serialize E w self (default PNone c2)
              (heap (snd (Field_render E self c1 st)))),
       mkState
         (snd (widget_serialize E w self (default PNone c2)
                 (heap (snd (Field_render E self c1 st)))))
         (calls st1)).
Proof.
  intros Ho Hs Hkeep.
  assert (Hw : exists w st1, Field_widget self st = (Ok w, st1)).
  { destruct (dict o !! "widget") as [v|] eqn:Hv.
    - exists v, st. apply Field_widget_cached, attr_lookup. eauto.
    - eexists _, _. apply (Field_widget_first st self o s Ho Hs Hv). }
  destruct Hw as (w & st1 & Hw). exists w, st1. split; [exact Hw|].
  assert (Hr1 : Field_render E self c1 st
                = (fst (widget_serialize E w self (default PNone c1)
                          (heap st1)),
                   mkState (snd (widget_serialize E w self
                                   (default PNone c1) (heap st1)))
                     (calls st1))).
  { unfold Field_render, bind, lift_heap. rewrite Hw.
    destruct (widget_serialize E w self (default PNone c1) (heap st1)).
    reflexivity. }
  split; [exact Hr1|].
  rewrite Hr1. cbn [snd heap calls].
  rewrite (Field_render_cached E self c2 _ w); [reflexivity|].
  cbn [heap]. rewrite Hkeep. apply (Field_widget_stored self st w st1 Hw).
Qed.

Lemma Field_render_twice_witness :
  exists w st1,
    Field_widget 0 Examples.color_built = (Ok w, st1) /\
    Field_render Examples.colander 0 None Examples.color_built
    = (fst (widget_serialize Examples.colander w 0 PNone (heap st1)),
       mkState (snd (widget_serialize Examples.colander w 0 PNone (heap st1)))
         (calls st1)).
Proof.
  destruct (Field_render_twice Examples.colander 0 None None
              Examples.color_built Examples.color_field Examples.color)
    as (w & st1 & Hw & Hr & _).
  - vm_compute. reflexivity.
  - vm_compute. reflexivity.
  - intros w c h. reflexivity.
  - exists w, st1. split; [exact Hw | exact Hr].
Defined.

(** ** Rendering after a failed validation *)

Lemma Field_validate_failure_inv E self fields st f c e st' :
  (forall x, raised_by_collaborator E x ->
     forall f' c' e', x <> ValidationFailure f' c' e') ->
  Field_validate E self fields st = (Raise (ValidationFailure f c e), st') ->
  f = self /\
  exists w st3 h4,
    attr (heap st3) self "widget" = Some w /\
    widget_handle_error E w self e (heap st3) = (Ok tt, h4) /\
    st' = mkState h4 (calls st3 ++ [CallHandleError w self e]).
Proof.
  intros Hno.
  unfold Field_validate, bind at 1 2 3 4 5, log at 1 2, lift at 1,
    lift_heap at 1.
  fold (after_parse fields st).
  destruct (peppercorn_parse E fields) as [p|x] eqn:Hp.
  2:{ intros [= -> _]. exfalso.
      eapply (Hno (ValidationFailure f c e)); [|reflexivity].
      left. eauto. }
  destruct (Field_widget self (after_parse fields st)) as [[w|x] st1] eqn:Hw.
  2:{ intros [= -> _].
      apply Field_widget_raises in Hw as [|]; discriminate. }
  cbn [heap calls].
  destruct (widget_deserialize E w self p (heap st1)) as [[c'|x] h2] eqn:Hc.
  2:{ intros [= -> _]. exfalso.
      eapply (Hno (ValidationFailure f c e)); [|reflexivity].
      right. left. exists w, self, p, (heap st1). rewrite Hc. reflexivity. }
  unfold try_except_Invalid, bind at 1 2, log at 1, lift at 1.
  destruct (get_schema self _) as [[s|x] st2] eqn:Hs.
  2:{ apply get_schema_raises in Hs as [-> | ->]; discriminate. }
  apply get_schema_state in Hs as [-> _]. cbn [heap calls].
  destruct (schema_deserialize E s c') as [v|x] eqn:Hv; [discriminate|].
  destruct x; try discriminate.
  2:{ intros [= -> -> -> _]. exfalso.
      eapply (Hno (ValidationFailure f c e)); [|reflexivity].
      right. right. left. eauto. }
  unfold bind, log, lift_heap, raise.
  match goal with
  | |- context [Field_widget self ?s2] =>
      destruct (Field_widget self s2) as [[w'|x] st3] eqn:Hw'
  end.
  2:{ intros [= -> _].
      apply Field_widget_raises in Hw' as [|]; discriminate. }
  cbn [heap calls].
  destruct (widget_handle_error E w' self error (heap st3))
    as [[[]|x] h4] eqn:Hh.
  - intros [= -> -> -> <-]. split; [reflexivity|].
    exists w', st3, h4. split; [|split; [exact Hh | reflexivity]].
    apply (Field_widget_stored _ _ _ _ Hw').
  - intros [= -> _]. exfalso.
    eapply (Hno (ValidationFailure f c e)); [|reflexivity].
    right. right. right. exists w', self, error, (heap st3).
    rewrite Hh. reflexivity.
Qed.

(** X7: the documented recovery, [except ValidationFailure, e:
    form.render(e.cstruct)].  With collaborators that do not raise
    [ValidationFailure] themselves and a [handle_error] that leaves the
    field's [widget] attribute alone, a [ValidationFailure] raised by
    [validate] carries the field it was called on; [handle_error] was the
    last call made, on the widget [w] that the field still holds; and
    rendering the carried cstruct goes to [w.serialize] on the store that
    [handle_error] left, with no other call. *)
Theorem Field_validate_failure_render E self fields st f c e st' :
  (forall x, raised_by_collaborator E x ->
     forall f' c' e', x <> ValidationFailure f' c' e') ->
  (forall w e' h,
     attr (snd (widget_handle_error E w self e' h)) self "widget"
     = attr h self "widget") ->
  Field_validate E self fields st = (Raise (ValidationFailure f c e), st') ->
  f = self /\
  exists w,
    attr (heap st') self "widget" = Some w /\
    last (calls st') = Some (CallHandleError w self e) /\
    Field_render E f (Some c) st'
    = (fst (widget_serialize E w self c (heap st')),
       mkState (snd (widget_serialize E w self c (heap st'))) (calls st')).
Proof.
  intros Hno Hkeep Hrun.
  destruct (Field_validate_failure_inv E self fields st f c e st' Hno Hrun)
    as (-> & w & st3 & h4 & Hw & Hh & ->).
  split; [reflexivity|]. exists w.
  assert (Hw4 : attr h4 self "widget" = Some w).
  { specialize (Hkeep w e (heap st3)). rewrite Hh in Hkeep. cbn [snd] in Hkeep.
    rewrite Hkeep. exact Hw. }
  split; [exact Hw4|]. split.
  - cbn [calls]. apply last_snoc.
  - apply (Field_render_cached E self (Some c) _ w). exact Hw4.
Qed.

Lemma Field_validate_failure_render_witness :
  exists w,
    attr (heap (snd (Field_validate Examples.colander 0 Examples.nothing
                       Examples.color_built))) 0 "widget" = Some w /\
    last (calls (snd (Field_validate Examples.colander 0 Examples.nothing
                        Examples.color_built)))
    = Some (CallHandleError w 0 (PStr "Required")).
Proof.
  destruct (Field_validate_failure_render Examples.colander 0
              Examples.nothing Examples.color_built 0 (PMap Examples.nothing)
              (PStr "Required")
              (snd (Field_validate Examples.colander 0 Examples.nothing
                      Examples.color_built)))
    as (_ & w & Hw & Hlast & _).
  - intros x [(fs & H) | [(w & f & p & h & H) | [(s & c & H)
                                                 | (w & f & e & h & H)]]]
      f' c' e' ->; try discriminate.
    cbn in H. destruct c as [| | |[|]|]; discriminate.
  - intros w e' h. cbn [Examples.colander widget_handle_error snd].
    apply attr_store_attr_ne. discriminate.
  - vm_compute. reflexivity.
  - exists w. split; [exact Hw | exact Hlast].
Defined.

(** ** Cloning a constructed field *)


Lemma schema_depth_unfold s :
  schema_depth s = S (max_list (map schema_depth (schema_children s))).
Proof. destruct s. reflexivity. Qed.

(** A field that mirrors a schema node is the root of a tree of fields, as
    deep as the schema below the node. *)
Lemma mirrors_is_tree h r s :
  forall l,
    mirrors h r s l ->
    class_of h l = Some ClsField ->
    exists t, root t = l /\ is_tree h t /\ depth t = schema_depth s.
Proof.
  induction s as [n t d rq ty sd ss IH] using SchemaNode_induction.
  intros l Hm Hcls.
  destruct (mirrors_children h r _ l Hm) as (cs & Hcs & Hkids).
  apply mirrors_unfold in Hm as (o & cs0 & Ho & Hs & _).
  cbn [schema_children] in Hkids.
  assert (Hks : exists ks, map root ks = cs /\ Forall (is_tree h) ks /\
                           map depth ks = map schema_depth ss).
  { clear Hcs Hs. induction Hkids as [|s' c ss cs [Hc Hmc] _ IHk].
    - exists []. repeat split; constructor.
    - inversion IH as [|? ? IHs' IHss]; subst.
      destruct (IHs' c Hmc Hc) as (k & Hroot & Htree & Hdepth).
      destruct (IHk IHss) as (ks & Hroots & Htrees & Hdepths).
      exists (k :: ks). cbn [map]. rewrite Hroot, Hroots, Hdepth, Hdepths.
      repeat split. constructor; assumption. }
  destruct Hks as (ks & Hroots & Htrees & Hdepths).
  exists (FNode l ks). split; [reflexivity|]. split.
  - apply is_tree_unfold. eexists o, _. split; [exact Ho|].
    unfold class_of in Hcls. rewrite Ho in Hcls. injection Hcls as ->.
    split; [exact I|]. split; [exact Hs|]. split; [|exact Htrees].
    apply attr_lookup in Hcs as (o' & Ho' & Hc). rewrite Hroots. congruence.
  - cbn [depth]. rewrite schema_depth_unfold. cbn [schema_children].
    rewrite Hdepths. reflexivity.
Qed.

Lemma clone_of_attr h h' t t' k v :
  clone_of h h' t t' ->
  k <> "children" ->
  attr h (root t) k = Some v -> attr h' (root t') k = Some v.
Proof.
  destruct t as [l ks], t' as [l' ks'].
  intros (o & o' & Ho & Ho' & _ & Hcopy & _)%clone_of_unfold Hk
    (o0 & Ho0 & Hv)%attr_lookup.
  cbn [root] in *. apply attr_lookup. exists o'. split; [exact Ho'|].
  apply Hcopy; [exact Hk|]. congruence.
Qed.




(** ** Lookup in a clone *)

Lemma find_roots_Forall2 (R : ftree -> ftree -> Prop) (p q : loc -> bool)
  ks ks' :
  Forall2 R ks ks' ->
  (forall k k', R k k' -> p (root k) = q (root k')) ->
  match List.find p (map root ks) with
  | Some c =>
      exists i k k',
        ks !! i = Some k /\ ks' !! i = Some k' /\ root k = c /\ R k k' /\
        List.find q (map root ks') = Some (root k')
  | None => List.find q (map root ks') = None
  end.
Proof.
  intros H2 Hpq. induction H2 as [|k k' ks ks' Hk _ IH];
    cbn [map List.find]; [reflexivity|].
  rewrite <- (Hpq k k' Hk). destruct (p (root k)).
  - exists 0, k, k'. repeat split. exact Hk.
  - destruct (List.find p (map root ks)) as [c|]; [|exact IH].
    destruct IH as (i & k0 & k0' & H1 & H2' & H3 & H4 & H5).
    exists (S i), k0, k0'. repeat split; assumption.
Qed.

(** X9: lookup commutes with [clone].  On a tree of fields whose children
    all have a name, [clone()[name]] is the clone of [field[name]]: it sits
    at the same position among the children, and when the original raises
    [KeyError] so does the clone. *)
Theorem Field_clone_getitem limit st t name :
  is_tree (heap st) t ->
  depth t <= limit ->
  Forall (fun k => is_Some (attr (heap st) (root k) "name")) (kids t) ->
  exists t' st',
    Field_clone limit (root t) st = (Ok (root t'), st') /\
    match fst (Field_getitem (root t) name st) with
    | Ok c =>
        exists i k k',
          kids t !! i = Some k /\ kids t' !! i = Some k' /\ root k = c /\
          clone_of (heap st) (heap st') k k' /\
          Field_getitem (root t') name st' = (Ok (root k'), st')
    | Raise x => Field_getitem (root t') name st' = (Raise x, st')
    end.
Proof.
  intros Htree Hdepth Hnames.
  destruct (Field_clone_run t limit st Htree Hdepth)
    as (t' & st' & Hrun & Hclone & _).
  exists t', st'. split; [exact Hrun|].
  destruct t as [l ks], t' as [l' ks']. cbn [root kids] in *.
  apply is_tree_unfold in Htree as (o & s & Ho & _ & _ & Hc & _).
  apply clone_of_unfold in Hclone
    as (o0 & o' & _ & Ho' & _ & _ & _ & Hc' & Hclones).
  assert (Hname : forall k k',
            k ∈ ks -> clone_of (heap st) (heap st') k k' ->
            attr (heap st') (root k') "name" = attr (heap st) (root k) "name").
  { intros k k' Hin Hk. rewrite Forall_forall in Hnames.
    destruct (Hnames k Hin) as [v Hv]. rewrite Hv.
    eapply clone_of_attr; [exact Hk | discriminate | exact Hv]. }
  assert (Hclones' : Forall2 (fun k k' =>
                                k ∈ ks /\ clone_of (heap st) (heap st') k k')
                       ks ks').
  { clear -Hclones. induction Hclones as [|k k' ks ks' Hk _ IH];
      constructor.
    - split; [left | exact Hk].
    - eapply Forall2_impl; [exact IH|]. intros a b [Ha Hab].
      split; [right; exact Ha | exact Hab]. }
  rewrite (Field_getitem_run st l name (map root ks))
    by (try (apply attr_lookup; eauto);
        apply Forall_fmap; exact Hnames).
  assert (Hnames' : Forall (fun c => is_Some (attr (heap st') c "name"))
                      (map root ks')).
  { apply Forall_fmap. clear -Hclones' Hname Hnames.
    rewrite Forall_forall in Hnames.
    induction Hclones' as [|k k' ks0 ks0' [Hin Hk] _ IH]; constructor;
      [|exact IH].
    cbn. rewrite (Hname k k' Hin Hk). apply Hnames, Hin. }
  rewrite (Field_getitem_run st' l' name (map root ks'))
    by (try (apply attr_lookup; eauto); exact Hnames').
  pose proof (find_roots_Forall2
                (fun k k' => k ∈ ks /\ clone_of (heap st) (heap st') k k')
                (has_name (heap st) name) (has_name (heap st') name)
                ks ks' Hclones') as Hfind.
  cbn [fst].
  destruct (List.find (has_name (heap st) name) (map root ks)) as [c|].
  - destruct Hfind as (i & k & k' & H1 & H2 & H3 & [_ H4] & H5).
    + intros k k' [Hin Hk]. unfold has_name. rewrite (Hname k k' Hin Hk).
      reflexivity.
    + exists i, k, k'. rewrite H5. auto.
  - rewrite Hfind; [reflexivity|].
    intros k k' [Hin Hk]. unfold has_name. rewrite (Hname k k' Hin Hk).
    reflexivity.
Qed.

Lemma twins_tree_is_tree :
  is_tree (heap Examples.twins_built) Examples.twins_tree.
Proof.
  assert (Hleaf : forall l s,
            heap Examples.twins_built !! l
            = Some (mkObj ClsField (Field_attrs s default_renderer [] ∅)) ->
            is_tree (heap Examples.twins_built) (FNode l [])).
  { intros l s Hl. apply is_tree_unfold. eexists _, s.
    split; [exact Hl|]. split; [exact I|].
    split; [apply Field_attrs_lookups|].
    split; [apply Field_attrs_lookups | constructor]. }
  apply is_tree_unfold.
  exists (mkObj ClsField
            (Field_attrs Examples.twins default_renderer [1; 2] ∅)),
    Examples.twins.
  split; [vm_compute; reflexivity|]. split; [exact I|].
  split; [apply Field_attrs_lookups|].
  split; [apply Field_attrs_lookups|].
  constructor; [|constructor; [|constructor]].
  - apply (Hleaf 1 (Examples.leaf "x" "first" None)).
    vm_compute. reflexivity.
  - apply (Hleaf 2 (Examples.leaf "x" "second" (Some 7))).
    vm_compute. reflexivity.
Qed.

Lemma Field_clone_getitem_witness :
  exists t' st',
    Field_clone 2 0 Examples.twins_built = (Ok (root t'), st') /\
    exists k',
      kids t' !! 0 = Some k' /\
      clone_of (heap Examples.twins_built) (heap st') (FNode 1 []) k' /\
      Field_getitem (root t') "x" st' = (Ok (root k'), st').
Proof.
  destruct (Field_clone_getitem 2 Examples.twins_built Examples.twins_tree
              "x" twins_tree_is_tree)
    as (t' & st' & Hrun & Hget).
  - vm_compute. lia.
  - repeat constructor; eexists; vm_compute; reflexivity.
  - exists t', st'. split; [exact Hrun|].
    replace (fst (Field_getitem (root Examples.twins_tree) "x"
                    Examples.twins_built))
      with (@Ok loc 1) in Hget by (vm_compute; reflexivity).
    destruct Hget as (i & k & k' & Hk & Hk' & Hroot & Hclone & Hget).
    clear Hrun.
    destruct i as [|[|i]]; cbn [kids Examples.twins_tree lookup list_lookup]
      in Hk.
    + injection Hk as <-. exists k'. auto.
    + injection Hk as <-. discriminate Hroot.
    + discriminate Hk.
Defined.

(** ** The default title of a button *)







(** ** The [error] of a new field *)

Lemma Field_new_writes s r :
  writes_only (fun _ k => k ∈ field_keys) (Field_new s r).
Proof.
  unfold Field_new. apply writes_only_bind; [apply writes_only_alloc|].
  intros self. apply writes_only_bind; [apply Field_init_writes_only|].
  intros _. apply writes_only_ret.
Qed.

Lemma is_tree_node h t :
  is_tree h t ->
  forall l, l ∈ nodes t ->
    exists o, h !! l = Some o /\ (cls o = ClsField \/ cls o = ClsForm).
Proof.
  induction t as [l ks IH] using ftree_induction.
  intros (o & s & Ho & Hcls & _ & _ & Hks)%is_tree_unfold x
    [->|(k & Hk & Hx)]%nodes_unfold.
  - exists o. split; [exact Ho|]. destruct (cls o); [auto | auto | tauto].
  - rewrite Forall_forall in IH, Hks. exact (IH k Hk (Hks k Hk) x Hx).
Qed.

(** In a tree built by the constructor every field sits after its parent. *)
Lemma mirrors_nodes_ge h r s :
  forall t,
    mirrors h r s (root t) -> is_tree h t ->
    forall x, x ∈ nodes t -> root t <= x.
Proof.
  induction s as [n tt d rq ty sd ss IH] using SchemaNode_induction.
  intros [l ks] Hm Htree x Hx. cbn [root] in *.
  apply nodes_unfold in Hx as [->|(k & Hk & Hx)]; [lia|].
  apply mirrors_unfold in Hm
    as (o & cs & Ho & _ & _ & _ & _ & _ & _ & Hc & _ & Hkids).
  apply is_tree_unfold in Htree as (o1 & s1 & Ho1 & _ & _ & Hc1 & Htrees).
  assert (Hroots : cs = map root ks) by congruence. subst cs.
  cbn [schema_children] in Hkids. apply all2_Forall2 in Hkids.
  clear -IH Hkids Htrees Hk Hx.
  revert ss IH Hkids. induction ks as [|k0 ks IHks]; intros ss IH Hkids;
    [inversion Hk|].
  cbn [map] in Hkids.
  inversion Hkids as [|s' ? ss' ? (Hlt & _ & Hmk) Hrest]; subst.
  inversion IH as [|? ? IHs' IHss]; subst.
  inversion Htrees as [|? ? Htk Htks]; subst.
  apply elem_of_cons in Hk as [->|Hk].
  - specialize (IHs' k0 Hmk Htk x Hx). lia.
  - exact (IHks Htks Hk ss' IHss Hrest).
Qed.

(** X11: [error] is [None] on every field of a new tree.  When
    [Field(schema, renderer)] returns, no field of the tree it built has an
    [error] attribute of its own, and reading [error] on any of them gives
    the class attribute [None], without changing anything. *)
Theorem Field_new_error_None s r st :
  exists st' t,
    Field_new s r st = (Ok (root t), st') /\
    root t = length (heap st) /\
    is_tree (heap st') t /\
    depth t = schema_depth s /\
    forall l, l ∈ nodes t ->
      attr (heap st') l "error" = None /\
      getattr l "error" st' = (Ok VNone, st').
Proof.
  destruct (Field_new_run s r st) as (st' & Hnew & Hm & Hcls).
  destruct (mirrors_is_tree _ _ _ _ Hm Hcls) as (t & Hroot & Htree & Hd).
  exists st', t. rewrite Hroot.
  split; [exact Hnew|]. split; [reflexivity|]. split; [exact Htree|].
  split; [exact Hd|]. intros l Hl.
  assert (Hge : length (heap st) <= l).
  { rewrite <- Hroot. eapply mirrors_nodes_ge; [|exact Htree | exact Hl].
    rewrite Hroot. exact Hm. }
  assert (Herr : attr (heap st') l "error" = None).
  { pose proof (Field_new_writes s r st l "error") as Hw.
    rewrite Hnew in Hw. cbn [snd] in Hw. rewrite Hw.
    - apply attr_beyond, Hge.
    - unfold field_keys. intros Hin.
      repeat (apply elem_of_cons in Hin as [Hin | Hin]; [discriminate|]).
      by apply elem_of_nil in Hin. }
  split; [exact Herr|].
  destruct (is_tree_node _ _ Htree l Hl) as (o & Ho & Hclso).
  unfold attr in Herr. rewrite Ho in Herr.
  unfold getattr, bind, read_obj. rewrite Ho, Herr.
  destruct Hclso as [-> | ->]; reflexivity.
Qed.

(** ** Lazy attributes of a clone *)



